(** * vscode-checkstyle: the diagnostic manager

    A shallow embedding of [CheckstyleDiagnosticManager]
    (checkstyleDiagnosticManager.ts) and of the command names of
    [constants/commands.ts].

    The manager is event driven: the editor delivers open, change and close
    events, a lodash [debounce] of 200 ms arms a timer, and the timer starts
    the asynchronous [sendPendingDiagnostics].  An asynchronous call is
    modelled as a suspended drain that is resumed by an explicit event, so
    that editor events can be interleaved at every [await]. *)

From stdpp Require Import gmap strings list fin_maps.

(** ** constants/commands.ts *)

Module JavaLanguageServerCommands.
Definition EXECUTE_WORKSPACE_COMMAND : string := "java.execute.workspaceCommand".
End JavaLanguageServerCommands.

Module CheckstyleExtensionCommands.
Definition SET_CHECKSTYLE_CONFIGURATION : string := "java.checkstyle.setConfiguration".
Definition CHECK_CODE_WITH_CHECKSTYLE : string := "java.checkstyle.checkCode".
Definition FIX_CHECKSTYLE_VIOLATION : string := "java.checkstyle.quickFix".
Definition OPEN_OUTPUT_CHANNEL : string := "java.checkstyle.open.output.channel".
End CheckstyleExtensionCommands.

Module VsCodeCommands.
Definition OPEN : string := "vscode.open".
End VsCodeCommands.

(** ** The editor's data, as far as the manager reads it *)

Record Uri := { scheme : string; fsPath : string }.

#[global] Instance Uri_eq_dec : EqDecision Uri.
Proof. solve_decision. Defined.

#[global] Program Instance Uri_countable : Countable Uri :=
  inj_countable' (λ u, (scheme u, fsPath u))
                 (λ p, {| scheme := p.1; fsPath := p.2 |}) _.
Next Obligation. by intros []. Qed.

Record TextDocument := {
  uri : Uri;
  languageId : string;
  getText : string
}.

(** One entry of [TextDocumentChangeEvent.contentChanges]: [rangeLength]
    characters from [rangeOffset] on are replaced by [text]. *)
Record ContentChange := {
  rangeOffset : nat;
  rangeLength : nat;
  text : string
}.

Record TextDocumentChangeEvent := {
  document : TextDocument;
  contentChanges : list ContentChange
}.

Definition apply_change (s : string) (c : ContentChange) : string :=
  String.substring 0 (rangeOffset c) s +:+ text c +:+
  String.substring (rangeOffset c + rangeLength c)
                   (String.length s - (rangeOffset c + rangeLength c)) s.

Definition apply_changes (cs : list ContentChange) (s : string) : string :=
  fold_left apply_change cs s.

(** What the editor does to a document on an edit. *)
Definition edited (cs : list ContentChange) (d : TextDocument) : TextDocument :=
  {| uri := uri d; languageId := languageId d;
     getText := apply_changes cs (getText d) |}.

(** Modelled from the spec: the finding record [ICheckstyleResult] of the
    missing [models]; the manager only passes findings on. *)
Record ICheckstyleResult := {
  line : nat;
  column : nat;
  message : string;
  severity : string;
  sourceName : string
}.

(** ** Collaborators whose code is outside the two source files *)

(** What the manager gets from outside the repository and from the modules
    that are not in the sources: the answers of [settingUtils] for a document,
    the location where the synchronizer mirrors it, and the editor's
    [Uri.toString()].  They are parameters of every operation below. *)
Record Env := {
  getCheckstyleConfigurationPath : Uri → string;
  getCheckstyleProperties : Uri → list (string * string);
  mirrorLocation : Uri → Uri;
  toString : Uri → string
}.

(** Modelled from the spec: [SyncedFile] of features/FileSynchronizer is
    missing.  It exposes the real identity and the identity of the mirrored
    location as read-only facts; [oid] is the identity of the JavaScript
    object, which is what a [Set<SyncedFile>] compares. *)
Record SyncedFile := {
  oid : nat;
  realUri : Uri;
  syncUri : Uri
}.

#[global] Instance SyncedFile_eq_dec : EqDecision SyncedFile.
Proof. solve_decision. Defined.

(** Modelled from the spec: a mirrored location holds the text the checker
    can read and the ordered edit deltas that were not written yet. *)
Record Mirror := {
  content : string;
  bufferedChanges : list ContentChange
}.

(** Modelled from the spec: [FileSynchronizer] of features/FileSynchronizer
    is missing.  It owns one mirrored location per open file. *)
Record FileSynchronizer := {
  tracked : gmap Uri Mirror;
  disposed : bool
}.

Module Sync.
Definition create : FileSynchronizer := {| tracked := ∅; disposed := false |}.

(** Modelled from the spec: [open()] establishes the mirrored location and
    initializes it with the current full text; a disposed synchronizer
    accepts no further registration. *)
Definition open (f : SyncedFile) (fullText : string) (s : FileSynchronizer)
  : FileSynchronizer :=
  if disposed s then s
  else {| tracked := <[syncUri f := {| content := fullText; bufferedChanges := [] |}]> (tracked s);
          disposed := false |}.

(** Modelled from the spec: [onContentChanged(edit)] appends the deltas to
    the buffer without materializing them. *)
Definition onContentChanged (f : SyncedFile) (cs : list ContentChange)
    (s : FileSynchronizer) : FileSynchronizer :=
  {| tracked := alter (λ m, {| content := content m;
                               bufferedChanges := bufferedChanges m ++ cs |})
                      (syncUri f) (tracked s);
     disposed := disposed s |}.

(** Modelled from the spec: [close()] releases the mirrored location. *)
Definition close (f : SyncedFile) (s : FileSynchronizer) : FileSynchronizer :=
  {| tracked := delete (syncUri f) (tracked s); disposed := disposed s |}.

Definition written (m : Mirror) : Mirror :=
  {| content := apply_changes (bufferedChanges m) (content m);
     bufferedChanges := [] |}.

(** Modelled from the spec: [flush()] applies, for every tracked file, the
    buffered changes to the mirrored location and clears the buffer.
    Changes that arrive after the call belong to the next flush; the
    returned promise never rejects. *)
Definition flush (s : FileSynchronizer) : FileSynchronizer :=
  {| tracked := written <$> tracked s; disposed := disposed s |}.

(** Modelled from the spec: [dispose()] releases all mirrored locations and
    stops accepting registrations. *)
Definition dispose (s : FileSynchronizer) : FileSynchronizer :=
  {| tracked := ∅; disposed := true |}.


End Sync.

(** [checkstyleDiagnosticCollector] is missing from the sources; its store
    maps a document identity to the current findings of the document. *)
Module Collector.
(** Modelled from the spec: [delete] of the missing collector drops the entry
    of the identity. *)
Definition delete (u : Uri) (store : gmap Uri (list ICheckstyleResult))
  : gmap Uri (list ICheckstyleResult) := base.delete u store.

(** Modelled from the spec: [addDiagnostics] of the missing collector
    inserts the findings under the identity. *)
Definition addDiagnostics (u : Uri) (results : list ICheckstyleResult)
    (store : gmap Uri (list ICheckstyleResult))
  : gmap Uri (list ICheckstyleResult) := <[u := results]> store.
End Collector.

(** ** A JavaScript [Set], with its live iterators

    ECMAScript keeps the entries of a [Set] in insertion order; [clear]
    replaces every entry by an empty slot, and an iterator is an index into
    the entries that skips empty slots, so that it sees entries added while
    the iteration is suspended. *)
Module JsSet.
Section Entries.
Context {A : Type} `{EqDecision A}.

Definition has (x : A) (s : list (option A)) : bool :=
  bool_decide (Some x ∈ s).

Definition add (x : A) (s : list (option A)) : list (option A) :=
  if has x s then s else s ++ [Some x].

Definition clear (s : list (option A)) : list (option A) :=
  (λ _, None) <$> s.

(** The entries, in iteration order. *)
Definition values (s : list (option A)) : list A := omap id s.

Fixpoint next_from (l : list (option A)) (i : nat) : option (A * nat) :=
  match l with
  | [] => None
  | Some x :: _ => Some (x, S i)
  | None :: l' => next_from l' (S i)
  end.

(** [next()] of an iterator at index [i]: the entry and the new index. *)
Definition next (s : list (option A)) (i : nat) : option (A * nat) :=
  next_from (drop i s) i.
End Entries.
End JsSet.

(** ** The manager and its host *)

Inductive Listener := OnDidOpen | OnDidChange | OnDidClose.

#[global] Instance Listener_eq_dec : EqDecision Listener.
Proof. solve_decision. Defined.

(** The handle that subscribing to an editor event pushes on [listeners]. *)
Record Disposable := {
  event : Listener;
  active : bool
}.

#[global] Instance Disposable_eq_dec : EqDecision Disposable.
Proof. solve_decision. Defined.

(** The arguments of one [executeJavaLanguageServerCommand] call. *)
Record Request := {
  command : string;
  target : string;
  configurationPath : string;
  properties : list (string * string)
}.

#[global] Instance Request_eq_dec : EqDecision Request.
Proof. solve_decision. Defined.

(** How the promise of a check call settles: with findings, with
    [undefined], or rejected. *)
Inductive Response :=
| Results (results : list ICheckstyleResult)
| Absent
| Throws (error : string).

(** How a call of [sendPendingDiagnostics] ended: at the end of the loop, or
    at one of the two [return] statements inside it. *)
Inductive Exit := Completed | NoConfiguration | NoResults.

(** A call of [sendPendingDiagnostics]: suspended at [await flush()],
    suspended at the [await] of the check call for [file] with the set
    iterator at index [position], or returned. *)
Inductive Drain :=
| AwaitFlush
| AwaitCheck (file : SyncedFile) (position : nat)
| Returned (how : Exit).

(** The fields of [CheckstyleDiagnosticManager], followed by the state of the
    host around it: the clock in milliseconds, the suspended calls, and what
    the collaborators have received. *)
Record World := {
  listeners : list Disposable;
  pendingDiagnostics : list (option SyncedFile);
  syncedFiles : gmap string SyncedFile;
  synchronizer : FileSynchronizer;
  (** the time at which the debounced call fires, when it is pending *)
  diagnosticDelayTrigger : option nat;
  clock : nat;
  allocated : nat;
  drains : list Drain;
  requests : list Request;
  collector : gmap Uri (list ICheckstyleResult);
  channel : list string;
  statusShown : nat;
  handledErrors : list string
}.

Definition with_listeners (x : list Disposable) (w : World) : World :=
  {| listeners := x; pendingDiagnostics := pendingDiagnostics w;
     syncedFiles := syncedFiles w; synchronizer := synchronizer w;
     diagnosticDelayTrigger := diagnosticDelayTrigger w; clock := clock w;
     allocated := allocated w; drains := drains w; requests := requests w;
     collector := collector w; channel := channel w;
     statusShown := statusShown w; handledErrors := handledErrors w |}.

Definition with_pendingDiagnostics (x : list (option SyncedFile)) (w : World) : World :=
  {| listeners := listeners w; pendingDiagnostics := x;
     syncedFiles := syncedFiles w; synchronizer := synchronizer w;
     diagnosticDelayTrigger := diagnosticDelayTrigger w; clock := clock w;
     allocated := allocated w; drains := drains w; requests := requests w;
     collector := collector w; channel := channel w;
     statusShown := statusShown w; handledErrors := handledErrors w |}.

Definition with_syncedFiles (x : gmap string SyncedFile) (w : World) : World :=
  {| listeners := listeners w; pendingDiagnostics := pendingDiagnostics w;
     syncedFiles := x; synchronizer := synchronizer w;
     diagnosticDelayTrigger := diagnosticDelayTrigger w; clock := clock w;
     allocated := allocated w; drains := drains w; requests := requests w;
     collector := collector w; channel := channel w;
     statusShown := statusShown w; handledErrors := handledErrors w |}.

Definition with_synchronizer (x : FileSynchronizer) (w : World) : World :=
  {| listeners := listeners w; pendingDiagnostics := pendingDiagnostics w;
     syncedFiles := syncedFiles w; synchronizer := x;
     diagnosticDelayTrigger := diagnosticDelayTrigger w; clock := clock w;
     allocated := allocated w; drains := drains w; requests := requests w;
     collector := collector w; channel := channel w;
     statusShown := statusShown w; handledErrors := handledErrors w |}.

Definition with_diagnosticDelayTrigger (x : option nat) (w : World) : World :=
  {| listeners := listeners w; pendingDiagnostics := pendingDiagnostics w;
     syncedFiles := syncedFiles w; synchronizer := synchronizer w;
     diagnosticDelayTrigger := x; clock := clock w;
     allocated := allocated w; drains := drains w; requests := requests w;
     collector := collector w; channel := channel w;
     statusShown := statusShown w; handledErrors := handledErrors w |}.

Definition with_clock (x : nat) (w : World) : World :=
  {| listeners := listeners w; pendingDiagnostics := pendingDiagnostics w;
     syncedFiles := syncedFiles w; synchronizer := synchronizer w;
     diagnosticDelayTrigger := diagnosticDelayTrigger w; clock := x;
     allocated := allocated w; drains := drains w; requests := requests w;
     collector := collector w; channel := channel w;
     statusShown := statusShown w; handledErrors := handledErrors w |}.

Definition with_allocated (x : nat) (w : World) : World :=
  {| listeners := listeners w; pendingDiagnostics := pendingDiagnostics w;
     syncedFiles := syncedFiles w; synchronizer := synchronizer w;
     diagnosticDelayTrigger := diagnosticDelayTrigger w; clock := clock w;
     allocated := x; drains := drains w; requests := requests w;
     collector := collector w; channel := channel w;
     statusShown := statusShown w; handledErrors := handledErrors w |}.

Definition with_drains (x : list Drain) (w : World) : World :=
  {| listeners := listeners w; pendingDiagnostics := pendingDiagnostics w;
     syncedFiles := syncedFiles w; synchronizer := synchronizer w;
     diagnosticDelayTrigger := diagnosticDelayTrigger w; clock := clock w;
     allocated := allocated w; drains := x; requests := requests w;
     collector := collector w; channel := channel w;
     statusShown := statusShown w; handledErrors := handledErrors w |}.

Definition with_requests (x : list Request) (w : World) : World :=
  {| listeners := listeners w; pendingDiagnostics := pendingDiagnostics w;
     syncedFiles := syncedFiles w; synchronizer := synchronizer w;
     diagnosticDelayTrigger := diagnosticDelayTrigger w; clock := clock w;
     allocated := allocated w; drains := drains w; requests := x;
     collector := collector w; channel := channel w;
     statusShown := statusShown w; handledErrors := handledErrors w |}.

Definition with_collector (x : gmap Uri (list ICheckstyleResult)) (w : World) : World :=
  {| listeners := listeners w; pendingDiagnostics := pendingDiagnostics w;
     syncedFiles := syncedFiles w; synchronizer := synchronizer w;
     diagnosticDelayTrigger := diagnosticDelayTrigger w; clock := clock w;
     allocated := allocated w; drains := drains w; requests := requests w;
     collector := x; channel := channel w;
     statusShown := statusShown w; handledErrors := handledErrors w |}.

Definition with_channel (x : list string) (w : World) : World :=
  {| listeners := listeners w; pendingDiagnostics := pendingDiagnostics w;
     syncedFiles := syncedFiles w; synchronizer := synchronizer w;
     diagnosticDelayTrigger := diagnosticDelayTrigger w; clock := clock w;
     allocated := allocated w; drains := drains w; requests := requests w;
     collector := collector w; channel := x;
     statusShown := statusShown w; handledErrors := handledErrors w |}.

Definition with_statusShown (x : nat) (w : World) : World :=
  {| listeners := listeners w; pendingDiagnostics := pendingDiagnostics w;
     syncedFiles := syncedFiles w; synchronizer := synchronizer w;
     diagnosticDelayTrigger := diagnosticDelayTrigger w; clock := clock w;
     allocated := allocated w; drains := drains w; requests := requests w;
     collector := collector w; channel := channel w;
     statusShown := x; handledErrors := handledErrors w |}.

Definition with_handledErrors (x : list string) (w : World) : World :=
  {| listeners := listeners w; pendingDiagnostics := pendingDiagnostics w;
     syncedFiles := syncedFiles w; synchronizer := synchronizer w;
     diagnosticDelayTrigger := diagnosticDelayTrigger w; clock := clock w;
     allocated := allocated w; drains := drains w; requests := requests w;
     collector := collector w; channel := channel w;
     statusShown := statusShown w; handledErrors := x |}.

(** ** The operations of the manager *)

(** [_.debounce(f, 200)] with lodash's default options calls [f] once, on the
    trailing edge: 200 ms after the most recent call of the debounced
    function. *)
Definition wait : nat := 200.

(** Calling [this.diagnosticDelayTrigger()]: the timer is (re)started. *)
Definition trigger (w : World) : World :=
  with_diagnosticDelayTrigger (Some (clock w + wait)) w.

Definition requestDiagnostic (file : SyncedFile) (w : World) : World :=
  trigger (with_pendingDiagnostics (JsSet.add file (pendingDiagnostics w)) w).

(** [new SyncedFile(document, this.synchronizer)] *)
Definition newSyncedFile (env : Env) (document : TextDocument) (w : World) : SyncedFile :=
  {| oid := allocated w; realUri := uri document;
     syncUri := mirrorLocation env (uri document) |}.

Definition onDidOpenTextDocument (env : Env) (document : TextDocument) (w : World) : World :=
  if negb (bool_decide (languageId document = "java")
           && bool_decide (scheme (uri document) = "file"))
  then w
  else
    let filePath := fsPath (uri document) in
    if bool_decide (is_Some (syncedFiles w !! filePath)) then w
    else
      let syncedFile := newSyncedFile env document w in
      let w := with_allocated (S (allocated w)) w in
      let w := with_syncedFiles (<[filePath := syncedFile]> (syncedFiles w)) w in
      let w := with_synchronizer
                 (Sync.open syncedFile (getText document) (synchronizer w)) w in
      requestDiagnostic syncedFile w.

Definition onDidChangeTextDocument (e : TextDocumentChangeEvent) (w : World) : World :=
  let filePath := fsPath (uri (document e)) in
  match syncedFiles w !! filePath with
  | None => w
  | Some syncedFile =>
      let w := with_synchronizer
                 (Sync.onContentChanged syncedFile (contentChanges e) (synchronizer w)) w in
      requestDiagnostic syncedFile w
  end.

Definition onDidCloseTextDocument (document : TextDocument) (w : World) : World :=
  let filePath := fsPath (uri document) in
  match syncedFiles w !! filePath with
  | None => w
  | Some syncedFile =>
      let w := with_syncedFiles (delete filePath (syncedFiles w)) w in
      with_synchronizer (Sync.close syncedFile (synchronizer w)) w
  end.

(** [initialize]: fresh fields, the three subscriptions pushed on
    [listeners], and an open event for every document that is already
    open. *)
Definition initialize (env : Env) (textDocuments : list TextDocument) : World :=
  foldl (λ w d, onDidOpenTextDocument env d w)
    {| listeners := [ {| event := OnDidOpen; active := true |};
                      {| event := OnDidChange; active := true |};
                      {| event := OnDidClose; active := true |} ];
       pendingDiagnostics := [];
       syncedFiles := ∅;
       synchronizer := Sync.create;
       diagnosticDelayTrigger := None;
       clock := 0; allocated := 0; drains := []; requests := [];
       collector := ∅; channel := []; statusShown := 0; handledErrors := [] |}
    textDocuments.

Definition dispose (w : World) : World :=
  let w := with_synchronizer (Sync.dispose (synchronizer w)) w in
  with_listeners
    ((λ l, {| event := event l; active := false |}) <$> listeners w) w.

(** The arguments of the check call for [file]. *)
Definition checkRequest (env : Env) (file : SyncedFile) : Request :=
  {| command := CheckstyleExtensionCommands.CHECK_CODE_WITH_CHECKSTYLE;
     target := toString env (syncUri file);
     configurationPath := getCheckstyleConfigurationPath env (realUri file);
     properties := getCheckstyleProperties env (realUri file) |}.

Definition finish (k : nat) (how : Exit) (w : World) : World :=
  with_drains (<[k := Returned how]> (drains w)) w.

(** The [for ... of] loop of [sendPendingDiagnostics], run by drain [k] from
    iterator index [position] up to the next [await], [return] or the end of
    the loop. *)
Definition loop (env : Env) (k position : nat) (w : World) : World :=
  match JsSet.next (pendingDiagnostics w) position with
  | None =>
      finish k Completed
        (with_pendingDiagnostics (JsSet.clear (pendingDiagnostics w)) w)
  | Some (file, position') =>
      let configurationPath := getCheckstyleConfigurationPath env (realUri file) in
      if bool_decide (configurationPath = "") then
        finish k NoConfiguration
          (with_channel
             (channel w ++ ["Checkstyle configuration file not set yet, skip the check."]) w)
      else
        with_drains (<[k := AwaitCheck file position']> (drains w))
          (with_requests (requests w ++ [checkRequest env file]) w)
  end.

(** The call of [sendPendingDiagnostics] up to its first [await]. *)
Definition sendPendingDiagnostics (w : World) : World :=
  with_drains (drains w ++ [AwaitFlush])
    (with_synchronizer (Sync.flush (synchronizer w)) w).

(** The promise of [flush()] resolves and drain [k] enters the loop. *)
Definition flushResolved (env : Env) (k : nat) (w : World) : World :=
  match drains w !! k with
  | Some AwaitFlush => loop env k 0 w
  | _ => w
  end.

(** The two statements that store the findings of [file]. *)
Definition reconcile (file : SyncedFile) (results : list ICheckstyleResult)
    (store : gmap Uri (list ICheckstyleResult)) : gmap Uri (list ICheckstyleResult) :=
  Collector.addDiagnostics (realUri file) results
    (Collector.delete (realUri file) store).

(** The promise of the check call of drain [k] settles. *)
Definition checkSettled (env : Env) (k : nat) (r : Response) (w : World) : World :=
  match drains w !! k with
  | Some (AwaitCheck file position) =>
      match r with
      | Absent =>
          finish k NoResults
            (with_channel
               (channel w ++ ["Unable to get results from Language Server."]) w)
      | Results results =>
          let w := with_collector (reconcile file results (collector w)) w in
          let w := with_statusShown (S (statusShown w)) w in
          loop env k position w
      | Throws error =>
          loop env k position (with_handledErrors (handledErrors w ++ [error]) w)
      end
  | _ => w
  end.

(** Time passes; the debounced call fires when its time is reached. *)
Definition elapse (dt : nat) (w : World) : World :=
  let w' := with_clock (clock w + dt) w in
  match diagnosticDelayTrigger w with
  | Some due =>
      if bool_decide (due ≤ clock w + dt)
      then sendPendingDiagnostics (with_diagnosticDelayTrigger None w')
      else w'
  | None => w'
  end.

(** ** Events and traces *)

Inductive Event :=
| DidOpenTextDocument (document : TextDocument)
| DidChangeTextDocument (e : TextDocumentChangeEvent)
| DidCloseTextDocument (document : TextDocument)
| Elapse (dt : nat)
| FlushResolved (k : nat)
| CheckSettled (k : nat) (r : Response)
| Dispose.

(** The editor calls a listener as long as its handle is not disposed. *)
Definition subscribed (l : Listener) (w : World) : bool :=
  bool_decide ({| event := l; active := true |} ∈ listeners w).

Definition step (env : Env) (w : World) (ev : Event) : World :=
  match ev with
  | DidOpenTextDocument d =>
      if subscribed OnDidOpen w then onDidOpenTextDocument env d w else w
  | DidChangeTextDocument e =>
      if subscribed OnDidChange w then onDidChangeTextDocument e w else w
  | DidCloseTextDocument d =>
      if subscribed OnDidClose w then onDidCloseTextDocument d w else w
  | Elapse dt => elapse dt w
  | FlushResolved k => flushResolved env k w
  | CheckSettled k r => checkSettled env k r w
  | Dispose => dispose w
  end.

Definition run (env : Env) (w : World) (evs : list Event) : World :=
  foldl (step env) w evs.

(** One call of [sendPendingDiagnostics] that runs to its end without any
    other event in between: every check call of the drain settles as
    [answers] says. *)
Fixpoint settle (env : Env) (answers : SyncedFile → Response) (k fuel : nat)
    (w : World) : World :=
  match fuel with
  | 0 => w
  | S fuel =>
      match drains w !! k with
      | Some (AwaitCheck file _) =>
          settle env answers k fuel (checkSettled env k (answers file) w)
      | _ => w
      end
  end.

Definition cycle (env : Env) (answers : SyncedFile → Response) (w : World) : World :=
  let k := length (drains w) in
  settle env answers k (length (pendingDiagnostics w))
    (flushResolved env k (sendPendingDiagnostics w)).

(** ** Vocabulary for the statements about a drain *)

Definition configured (env : Env) (file : SyncedFile) : Prop :=
  getCheckstyleConfigurationPath env (realUri file) ≠ "".

Definition answered (answers : SyncedFile → Response) (file : SyncedFile) : Prop :=
  answers file ≠ Absent.

(** What a settled check call of [file] leaves in the diagnostics store and
    at the error handler. *)
Definition stored (answers : SyncedFile → Response)
    (store : gmap Uri (list ICheckstyleResult)) (file : SyncedFile)
  : gmap Uri (list ICheckstyleResult) :=
  match answers file with
  | Results results => reconcile file results store
  | _ => store
  end.

Definition thrown (answers : SyncedFile → Response) (file : SyncedFile) : list string :=
  match answers file with
  | Throws error => [error]
  | _ => []
  end.

(** The three ways in which the loop leaves a resumed drain. *)
Inductive LoopOutcome (env : Env) (k : nat) (w : World) : World → Prop :=
| LoopEnds :
    LoopOutcome env k w
      (finish k Completed
         (with_pendingDiagnostics (JsSet.clear (pendingDiagnostics w)) w))
| LoopReturns file :
    ¬ configured env file →
    LoopOutcome env k w
      (finish k NoConfiguration
         (with_channel
            (channel w ++ ["Checkstyle configuration file not set yet, skip the check."]) w))
| LoopAwaits file position :
    configured env file →
    LoopOutcome env k w
      (with_drains (<[k := AwaitCheck file position]> (drains w))
         (with_requests (requests w ++ [checkRequest env file]) w)).

(** ** Bursts of edits *)




(** ** Concrete documents and settings for the examples *)

Module Demo.
Definition fileUri (path : string) : Uri := {| scheme := "file"; fsPath := path |}.

Definition java (path source : string) : TextDocument :=
  {| uri := fileUri path; languageId := "java"; getText := source |}.

Definition docA : TextDocument := java "/ws/A.java" "class A {}".
Definition docB : TextDocument := java "/ws/B.java" "class B {}".
Definition docC : TextDocument := java "/ws/C.java" "class C {}".

(** The string of a location whose path needs no escaping. *)
Definition plain (u : Uri) : string := scheme u +:+ "://" +:+ fsPath u.

(** Every document is configured, except [docB]. *)
Definition env : Env :=
  {| getCheckstyleConfigurationPath :=
       λ u, if bool_decide (fsPath u = "/ws/B.java") then "" else "/ws/checks.xml";
     getCheckstyleProperties := λ _, [("basedir", "/ws")];
     mirrorLocation := λ u, fileUri ("/tmp/sync" +:+ fsPath u);
     toString := plain |}.

(** Every document is configured. *)
Definition envAll : Env :=
  {| getCheckstyleConfigurationPath := λ _, "/ws/checks.xml";
     getCheckstyleProperties := λ _, [("basedir", "/ws")];
     mirrorLocation := λ u, fileUri ("/tmp/sync" +:+ fsPath u);
     toString := plain |}.

Definition synced (n : nat) (d : TextDocument) : SyncedFile :=
  {| oid := n; realUri := uri d; syncUri := mirrorLocation env (uri d) |}.

Definition finding (l : nat) (msg : string) : ICheckstyleResult :=
  {| line := l; column := 1; message := msg; severity := "warning";
     sourceName := "checkstyle" |}.

Definition rename : list ContentChange :=
  [ {| rangeOffset := 6; rangeLength := 1; text := "Z" |} ].



Definition answersAll (file : SyncedFile) : Response :=
  Results [finding 1 "missing javadoc"].
End Demo.

(** ** Vocabulary for the properties of the whole manager *)

(** The documents that [onDidOpenTextDocument] does not turn away. *)
Definition accepted (d : TextDocument) : bool :=
  bool_decide (languageId d = "java") && bool_decide (scheme (uri d) = "file").

(** The worlds the manager can be in: [initialize], then any events. *)
Definition reached (env : Env) (textDocuments : list TextDocument)
    (evs : list Event) : World :=
  run env (initialize env textDocuments) evs.

Definition inFlight (d : Drain) : bool :=
  match d with AwaitCheck _ _ => true | _ => false end.

Definition unanswered (d : Drain) : bool :=
  match d with Returned NoResults => true | _ => false end.

Definition returnedEarly (d : Drain) : bool :=
  match d with
  | Returned NoConfiguration | Returned NoResults => true
  | _ => false
  end.

Definition returned (d : Drain) : bool :=
  match d with Returned _ => true | _ => false end.

Definition tally (p : Drain → bool) (ds : list Drain) : nat :=
  length (List.filter p ds).

(** The events that do not come from the editor: time and settled promises. *)
Definition hostEvent (ev : Event) : bool :=
  match ev with
  | Elapse _ | FlushResolved _ | CheckSettled _ _ => true
  | _ => false
  end.

(** What every step of the manager keeps. *)
Record Coherent (env : Env) (w : World) : Prop := {
  coh_registry : ∀ p f, syncedFiles w !! p = Some f →
    fsPath (realUri f) = p ∧ scheme (realUri f) = "file"
    ∧ syncUri f = mirrorLocation env (realUri f) ∧ oid f < allocated w;
  coh_fresh : ∀ f, Some f ∈ pendingDiagnostics w → oid f < allocated w;
  coh_once : NoDup (JsSet.values (pendingDiagnostics w));
  coh_positions : ∀ k f position,
    drains w !! k = Some (AwaitCheck f position) →
    position ≤ length (pendingDiagnostics w);
  coh_requests : ∀ r, r ∈ requests w →
    command r = CheckstyleExtensionCommands.CHECK_CODE_WITH_CHECKSTYLE
    ∧ configurationPath r ≠ "";
  coh_accounting :
    length (requests w)
    = tally inFlight (drains w) + statusShown w + length (handledErrors w)
      + tally unanswered (drains w);
  coh_log : length (channel w) = tally returnedEarly (drains w)
}.

(** ** A drain, told as the loop reads *)

(** The files for which an uninterrupted drain sends a check request when it
    iterates over [files], and how it ends: file by file, in order, until a
    file has no configuration (it is not requested) or a check call returns
    nothing (it was requested), or to the end of the list. *)
Fixpoint served (env : Env) (answers : SyncedFile → Response)
    (files : list SyncedFile) : list SyncedFile * Exit :=
  match files with
  | [] => ([], Completed)
  | file :: rest =>
      if bool_decide (getCheckstyleConfigurationPath env (realUri file) = "")
      then ([], NoConfiguration)
      else
        match answers file with
        | Absent => ([file], NoResults)
        | _ => (file :: (served env answers rest).1, (served env answers rest).2)
        end
  end.

(** The line an early return writes to the output channel. *)
Definition exitLog (how : Exit) : list string :=
  match how with
  | Completed => []
  | NoConfiguration => ["Checkstyle configuration file not set yet, skip the check."]
  | NoResults => ["Unable to get results from Language Server."]
  end.

(** The pending set after a drain over [s] that ended as [how]. *)
Definition leftPending (how : Exit) (s : list (option SyncedFile))
  : list (option SyncedFile) :=
  match how with
  | Completed => JsSet.clear s
  | _ => s
  end.

(** Whether the debounced call is waiting to fire. *)
Definition armed (w : World) : nat :=
  match diagnosticDelayTrigger w with Some _ => 1 | None => 0 end.

(** ** The set and its iterator *)

Section JsSetFacts.
Context {A : Type} `{EqDecision A}.
Implicit Types (s pre l : list (option A)) (x : A).

Lemma next_at_suffix pre l :
  JsSet.next (pre ++ l) (length pre) = JsSet.next_from l (length pre).
Proof. unfold JsSet.next. by rewrite drop_app_length. Qed.

Lemma next_at_end pre : JsSet.next pre (length pre) = None.
Proof.
  rewrite <- (app_nil_r pre) at 1. by rewrite next_at_suffix.
Qed.

Lemma next_skips_empty pre l :
  JsSet.next (pre ++ None :: l) (length pre)
  = JsSet.next ((pre ++ [None]) ++ l) (length (pre ++ [None])).
Proof.
  rewrite !next_at_suffix, length_app. simpl.
  by replace (length pre + 1) with (S (length pre)) by lia.
Qed.

Lemma next_finds_entry pre l x :
  JsSet.next (pre ++ Some x :: l) (length pre) = Some (x, S (length pre)).
Proof. by rewrite next_at_suffix. Qed.

Lemma has_spec x s : JsSet.has x s = true ↔ Some x ∈ s.
Proof. unfold JsSet.has. by rewrite bool_decide_eq_true. Qed.

Lemma add_present x s : Some x ∈ s → JsSet.add x s = s.
Proof. intros Hin. unfold JsSet.add. by rewrite (proj2 (has_spec x s) Hin). Qed.

Lemma add_fresh x s : Some x ∉ s → JsSet.add x s = s ++ [Some x].
Proof.
  intros Hin. unfold JsSet.add.
  destruct (JsSet.has x s) eqn:E; [|done]. by apply has_spec in E.
Qed.



Lemma values_app s l : JsSet.values (s ++ l) = JsSet.values s ++ JsSet.values l.
Proof. apply omap_app. Qed.

Lemma values_clear s : JsSet.values (JsSet.clear s) = [].
Proof. induction s as [|[?|] s IH]; simpl; auto. Qed.

Lemma elem_of_values x s : x ∈ JsSet.values s ↔ Some x ∈ s.
Proof.
  unfold JsSet.values. rewrite list_elem_of_omap. split.
  - intros (o & Ho & Hx). simpl in Hx. by subst.
  - intros Hx. by exists (Some x).
Qed.


Lemma add_NoDup x s : NoDup (JsSet.values s) → NoDup (JsSet.values (JsSet.add x s)).
Proof.
  intros Hnd. destruct (decide (Some x ∈ s)) as [Hin|Hin].
  - by rewrite add_present.
  - rewrite add_fresh, values_app by done. simpl.
    apply NoDup_app. split_and!; [done | | apply NoDup_singleton].
    intros y Hy ->%list_elem_of_singleton. by apply elem_of_values in Hy.
Qed.

End JsSetFacts.

Section JsSetIteration.
Context {A : Type} `{EqDecision A}.
Implicit Types (s pre post l : list (option A)) (x : A).

Lemma next_from_app_none l l' j :
  JsSet.next_from l j = None →
  JsSet.next_from (l ++ l') j = JsSet.next_from l' (j + length l).
Proof.
  revert j. induction l as [|[y|] l IH]; intros j; simpl.
  - intros _. by rewrite Nat.add_0_r.
  - done.
  - intros Hn. rewrite IH by done. f_equal. lia.
Qed.


(** An iterator that was exhausted finds what is added afterwards. *)
Lemma next_past_end s l i :
  i ≤ length s → JsSet.next s i = None →
  JsSet.next (s ++ l) i = JsSet.next_from l (length s).
Proof.
  unfold JsSet.next. intros Hi Hn.
  rewrite drop_app_le by done. rewrite next_from_app_none by done.
  rewrite length_drop. f_equal. lia.
Qed.




End JsSetIteration.

(** ** One drain, step by step *)

Section Drain.
Context (env : Env).
Implicit Types (w : World) (k : nat) (file : SyncedFile).

Lemma loop_outcome k position w : LoopOutcome env k w (loop env k position w).
Proof.
  unfold loop. destruct (JsSet.next _ _) as [[file position']|].
  - case_bool_decide as Hcfg.
    + by apply (LoopReturns _ _ _ file); intros H.
    + by apply LoopAwaits.
  - apply LoopEnds.
Qed.

Lemma loop_at_end k pre w :
  pendingDiagnostics w = pre →
  loop env k (length pre) w
  = finish k Completed (with_pendingDiagnostics (JsSet.clear pre) w).
Proof. intros Hp. unfold loop. by rewrite Hp, next_at_end. Qed.

Lemma loop_skips_empty k pre l w :
  pendingDiagnostics w = pre ++ None :: l →
  loop env k (length pre) w = loop env k (length (pre ++ [None])) w.
Proof.
  intros Hp. unfold loop. rewrite Hp, next_skips_empty.
  by rewrite <- (assoc_L (++)).
Qed.

Lemma loop_unconfigured k pre l file w :
  pendingDiagnostics w = pre ++ Some file :: l →
  ¬ configured env file →
  loop env k (length pre) w
  = finish k NoConfiguration
      (with_channel
         (channel w ++ ["Checkstyle configuration file not set yet, skip the check."]) w).
Proof.
  intros Hp Hcfg. unfold loop. rewrite Hp, next_finds_entry.
  rewrite bool_decide_eq_true_2; [done|].
  unfold configured in Hcfg. by destruct (decide (getCheckstyleConfigurationPath env (realUri file) = "")).
Qed.

Lemma loop_configured k pre l file w :
  pendingDiagnostics w = pre ++ Some file :: l →
  configured env file →
  loop env k (length pre) w
  = with_drains (<[k := AwaitCheck file (S (length pre))]> (drains w))
      (with_requests (requests w ++ [checkRequest env file]) w).
Proof.
  intros Hp Hcfg. unfold loop. rewrite Hp, next_finds_entry.
  by rewrite bool_decide_eq_false_2.
Qed.


Lemma loop_returned_early k position w how :
  k < length (drains w) →
  drains (loop env k position w) !! k = Some (Returned how) →
  how ≠ Completed →
  pendingDiagnostics (loop env k position w) = pendingDiagnostics w.
Proof.
  intros Hk Hd Hhow. destruct (loop_outcome k position w); simpl in *; [|done..].
  rewrite list_lookup_insert_eq in Hd by done. congruence.
Qed.

Lemma checkSettled_returned_early k r w how :
  drains w !! k ≠ Some (Returned how) →
  drains (checkSettled env k r w) !! k = Some (Returned how) →
  how ≠ Completed →
  pendingDiagnostics (checkSettled env k r w) = pendingDiagnostics w.
Proof.
  unfold checkSettled. intros Hbefore Hd Hhow.
  destruct (drains w !! k) as [[|file position|?]|] eqn:E; try done.
  assert (k < length (drains w)) by by eapply lookup_lt_Some.
  destruct r as [results| |error]; [|done|].
  - by rewrite (loop_returned_early _ _ _ how).
  - by rewrite (loop_returned_early _ _ _ how).
Qed.

Lemma settle_returned answers k fuel w how :
  drains w !! k = Some (Returned how) → settle env answers k fuel w = w.
Proof. intros Hd. destruct fuel; simpl; [done|]. by rewrite Hd. Qed.

End Drain.

(** ** One drain, run to its end *)

Section Cycle.
Context (env : Env) (answers : SyncedFile → Response).
Implicit Types (w : World) (k : nat) (file : SyncedFile).



Lemma sendPendingDiagnostics_awaits w :
  drains (sendPendingDiagnostics w) !! length (drains w) = Some AwaitFlush.
Proof.
  unfold sendPendingDiagnostics. simpl.
  by rewrite lookup_app_r, Nat.sub_diag.
Qed.

Lemma cycle_unfold w :
  cycle env answers w
  = settle env answers (length (drains w)) (length (pendingDiagnostics w))
      (loop env (length (drains w)) 0 (sendPendingDiagnostics w)).
Proof.
  unfold cycle, flushResolved. by rewrite sendPendingDiagnostics_awaits.
Qed.


(** Enough fuel: the number of slots of the set bounds the number of check
    calls of a drain, so the drain has returned when [settle] stops. *)
Lemma settle_loop_returns k l : ∀ pre w fuel,
  pendingDiagnostics w = pre ++ l →
  k < length (drains w) →
  length l ≤ fuel →
  ∃ how, drains (settle env answers k fuel (loop env k (length pre) w)) !! k
         = Some (Returned how).
Proof.
  induction l as [|[file|] l IH]; intros pre w fuel Hp Hk Hfuel.
  - rewrite app_nil_r in Hp. rewrite (loop_at_end _ _ _ _ Hp).
    exists Completed. rewrite settle_returned with (how := Completed);
      simpl; by apply list_lookup_insert_eq.
  - destruct (decide (configured env file)) as [Hcfg|Hcfg].
    + rewrite (loop_configured _ _ _ _ _ _ Hp Hcfg).
      destruct fuel as [|fuel]; [simpl in Hfuel; lia|].
      simpl settle. rewrite list_lookup_insert_eq by done.
      unfold checkSettled. simpl drains. rewrite list_lookup_insert_eq by done.
      replace (S (length pre)) with (length (pre ++ [Some file]))
        by (rewrite length_app; simpl; lia).
      simpl in Hfuel.
      destruct (answers file) as [results| |error].
      * apply IH; simpl; [by rewrite Hp, <- (assoc_L (++)) | by rewrite length_insert | lia].
      * exists NoResults. rewrite settle_returned with (how := NoResults);
          simpl; apply list_lookup_insert_eq; by rewrite length_insert.
      * apply IH; simpl; [by rewrite Hp, <- (assoc_L (++)) | by rewrite length_insert | lia].
    + rewrite (loop_unconfigured _ _ _ _ _ _ Hp Hcfg).
      exists NoConfiguration. rewrite settle_returned with (how := NoConfiguration);
        simpl; by apply list_lookup_insert_eq.
  - rewrite (loop_skips_empty _ _ _ _ _ Hp).
    apply IH; [by rewrite Hp, <- (assoc_L (++)) | done | simpl in Hfuel; lia].
Qed.

Lemma cycle_returns w :
  ∃ how, drains (cycle env answers w) !! length (drains w) = Some (Returned how).
Proof.
  rewrite cycle_unfold.
  apply (settle_loop_returns _ (pendingDiagnostics w) []); simpl; [done| |done].
  rewrite length_app. simpl. lia.
Qed.

(** A drain in which every file has a configuration and every check call
    settles with findings or with an error: every file is requested, in
    order, and the set is cleared at the end. *)
Lemma settle_loop_good k l : ∀ pre w fuel,
  pendingDiagnostics w = pre ++ l →
  k < length (drains w) →
  length l ≤ fuel →
  Forall (λ file, configured env file ∧ answered answers file) (JsSet.values l) →
  let w' := settle env answers k fuel (loop env k (length pre) w) in
  requests w' = requests w ++ (checkRequest env <$> JsSet.values l)
  ∧ collector w' = foldl (stored answers) (collector w) (JsSet.values l)
  ∧ handledErrors w' = handledErrors w ++ (JsSet.values l ≫= thrown answers)
  ∧ pendingDiagnostics w' = JsSet.clear (pre ++ l)
  ∧ drains w' = <[k := Returned Completed]> (drains w)
  ∧ channel w' = channel w.
Proof.
  induction l as [|[file|] l IH]; intros pre w fuel Hp Hk Hfuel Hgood.
  - rewrite app_nil_r in *. rewrite (loop_at_end _ _ _ _ Hp).
    rewrite settle_returned with (how := Completed);
      simpl; [|by apply list_lookup_insert_eq].
    by rewrite !app_nil_r.
  - change (JsSet.values (Some file :: l)) with (file :: JsSet.values l) in *.
    apply Forall_cons in Hgood as [[Hcfg Hans] Hgood].
    rewrite (loop_configured _ _ _ _ _ _ Hp Hcfg).
    destruct fuel as [|fuel]; [simpl in Hfuel; lia|]. simpl in Hfuel.
    simpl settle. rewrite list_lookup_insert_eq by done.
    unfold checkSettled. simpl drains. rewrite list_lookup_insert_eq by done.
    replace (S (length pre)) with (length (pre ++ [Some file]))
      by (rewrite length_app; simpl; lia).
    unfold answered in Hans.
    assert (Hst : ∀ store, foldl (stored answers) store (file :: JsSet.values l)
                  = foldl (stored answers) (stored answers store file) (JsSet.values l))
      by done.
    assert (Hth : (file :: JsSet.values l) ≫= thrown answers
                  = thrown answers file ++ (JsSet.values l ≫= thrown answers))
      by done.
    rewrite Hst, Hth. unfold stored at 2, thrown at 1.
    destruct (answers file) as [results| |error] eqn:Hr; [|done|].
    all: match goal with |- context [loop env ?i _ ?w2] =>
        destruct (IH (pre ++ [Some file]) w2 fuel) as (Hq & Hc & He & Hpd & Hd & Hch)
      end; simpl; [by rewrite Hp, <- (assoc_L (++)) | by rewrite length_insert | lia | done |].
    all: simpl in Hq, Hc, He, Hpd, Hd, Hch; rewrite Hq, Hc, He, Hpd, Hd, Hch.
    all: rewrite <- !(assoc_L (++)); simpl.
    all: by rewrite list_insert_insert_eq.
  - rewrite (loop_skips_empty _ _ _ _ _ Hp).
    destruct (IH (pre ++ [None]) w fuel) as (Hq & Hc & He & Hpd & Hd & Hch);
      [by rewrite Hp, <- (assoc_L (++)) | done | simpl in Hfuel; lia | done |].
    simpl in *. rewrite Hq, Hc, He, Hpd, Hd, Hch.
    by rewrite <- !(assoc_L (++)).
Qed.

End Cycle.

(** ** What an event can touch *)

Section Frames.
Context (env : Env).
Implicit Types (w : World) (k : nat) (file : SyncedFile).

Lemma loop_requests k position w :
  k < length (drains w) →
  requests (loop env k position w) = requests w
  ∨ ∃ file position',
      drains (loop env k position w) !! k = Some (AwaitCheck file position')
      ∧ requests (loop env k position w) = requests w ++ [checkRequest env file].
Proof.
  intros Hk. destruct (loop_outcome env k position w); simpl; auto.
  right. exists file, position0. by rewrite list_lookup_insert_eq.
Qed.

Lemma loop_collector k position w :
  collector (loop env k position w) = collector w.
Proof. by destruct (loop_outcome env k position w). Qed.

Lemma editor_event_untouched w ev :
  match ev with
  | DidOpenTextDocument _ | DidChangeTextDocument _ | DidCloseTextDocument _ => True
  | _ => False
  end →
  requests (step env w ev) = requests w
  ∧ collector (step env w ev) = collector w
  ∧ drains (step env w ev) = drains w.
Proof.
  destruct ev as [d|e|d| | | |]; try done; intros _; simpl.
  - destruct (subscribed _ _); [|done]. unfold onDidOpenTextDocument.
    destruct (negb _); [done|]. by case_bool_decide.
  - destruct (subscribed _ _); [|done]. unfold onDidChangeTextDocument.
    by destruct (syncedFiles w !! _).
  - destruct (subscribed _ _); [|done]. unfold onDidCloseTextDocument.
    by destruct (syncedFiles w !! _).
Qed.

Lemma elapse_untouched dt w :
  requests (elapse dt w) = requests w
  ∧ collector (elapse dt w) = collector w
  ∧ pendingDiagnostics (elapse dt w) = pendingDiagnostics w.
Proof.
  unfold elapse. destruct (diagnosticDelayTrigger w); [|done].
  by case_bool_decide.
Qed.

Lemma subscribed_dispose l w : subscribed l (dispose w) = false.
Proof.
  unfold subscribed, dispose. simpl. apply bool_decide_eq_false_2.
  rewrite list_elem_of_fmap. by intros (? & [=] & _).
Qed.

End Frames.

Section WholeCycle.
Context (env : Env) (answers : SyncedFile → Response).
Implicit Types (w : World) (file : SyncedFile).

Lemma cycle_good w :
  Forall (λ file, configured env file ∧ answered answers file)
         (JsSet.values (pendingDiagnostics w)) →
  requests (cycle env answers w)
  = requests w ++ (checkRequest env <$> JsSet.values (pendingDiagnostics w))
  ∧ collector (cycle env answers w)
    = foldl (stored answers) (collector w) (JsSet.values (pendingDiagnostics w))
  ∧ handledErrors (cycle env answers w)
    = handledErrors w ++ (JsSet.values (pendingDiagnostics w) ≫= thrown answers)
  ∧ pendingDiagnostics (cycle env answers w) = JsSet.clear (pendingDiagnostics w)
  ∧ drains (cycle env answers w) = drains w ++ [Returned Completed]
  ∧ channel (cycle env answers w) = channel w.
Proof.
  intros Hgood. rewrite cycle_unfold.
  destruct (settle_loop_good env answers (length (drains w)) (pendingDiagnostics w) []
              (sendPendingDiagnostics w) (length (pendingDiagnostics w)))
    as (Hq & Hc & He & Hpd & Hd & Hch); simpl; try done.
  { rewrite length_app. simpl. lia. }
  simpl in *. rewrite Hq, Hc, He, Hpd, Hd, Hch. split_and!; try done.
  rewrite insert_app_r_alt, Nat.sub_diag by done. done.
Qed.

End WholeCycle.

(** ** Every uninterrupted drain, in one statement *)

Section Served.
Context (env : Env) (answers : SyncedFile → Response).
Implicit Types (w : World) (k : nat) (file : SyncedFile).

Lemma stored_results file results store :
  answers file = Results results →
  stored answers store file = reconcile file results store.
Proof. unfold stored. by intros ->. Qed.

Lemma stored_absent file store :
  answers file = Absent → stored answers store file = store.
Proof. unfold stored. by intros ->. Qed.

Lemma stored_throws file error store :
  answers file = Throws error → stored answers store file = store.
Proof. unfold stored. by intros ->. Qed.

Lemma thrown_results file results :
  answers file = Results results → thrown answers file = [].
Proof. unfold thrown. by intros ->. Qed.

Lemma thrown_absent file : answers file = Absent → thrown answers file = [].
Proof. unfold thrown. by intros ->. Qed.

Lemma thrown_throws file error :
  answers file = Throws error → thrown answers file = [error].
Proof. unfold thrown. by intros ->. Qed.

Lemma served_cons_unconfigured file rest :
  ¬ configured env file → served env answers (file :: rest) = ([], NoConfiguration).
Proof.
  intros Hcfg. simpl. rewrite bool_decide_eq_true_2; [done|].
  unfold configured in Hcfg.
  by destruct (decide (getCheckstyleConfigurationPath env (realUri file) = "")).
Qed.

Lemma served_cons_absent file rest :
  configured env file → answers file = Absent →
  served env answers (file :: rest) = ([file], NoResults).
Proof. intros Hcfg Ha. simpl. by rewrite bool_decide_eq_false_2, Ha. Qed.

Lemma served_cons_answered file rest :
  configured env file → answered answers file →
  served env answers (file :: rest)
  = (file :: (served env answers rest).1, (served env answers rest).2).
Proof.
  intros Hcfg Ha. simpl. rewrite bool_decide_eq_false_2 by done.
  unfold answered in Ha. by destruct (answers file).
Qed.

Lemma served_all files :
  Forall (λ f, configured env f ∧ answered answers f) files →
  served env answers files = (files, Completed).
Proof.
  induction 1 as [|f fs [Hcfg Ha] _ IH]; [done|].
  by rewrite served_cons_answered, IH.
Qed.

Lemma served_stops_unconfigured before file after :
  Forall (λ f, configured env f ∧ answered answers f) before →
  ¬ configured env file →
  served env answers (before ++ file :: after) = (before, NoConfiguration).
Proof.
  intros Hgood Hcfg. induction Hgood as [|f fs [Hc Ha] _ IH]; simpl app.
  - by apply served_cons_unconfigured.
  - by rewrite served_cons_answered, IH.
Qed.

Lemma settle_loop_served k l : ∀ pre w fuel,
  pendingDiagnostics w = pre ++ l →
  k < length (drains w) →
  length l ≤ fuel →
  let o := served env answers (JsSet.values l) in
  let w' := settle env answers k fuel (loop env k (length pre) w) in
  requests w' = requests w ++ (checkRequest env <$> o.1)
  ∧ collector w' = foldl (stored answers) (collector w) o.1
  ∧ handledErrors w' = handledErrors w ++ (o.1 ≫= thrown answers)
  ∧ pendingDiagnostics w' = leftPending o.2 (pre ++ l)
  ∧ drains w' = <[k := Returned o.2]> (drains w)
  ∧ channel w' = channel w ++ exitLog o.2.
Proof.
  induction l as [|[file|] l IH]; intros pre w fuel Hp Hk Hfuel.
  - rewrite app_nil_r in *. rewrite (loop_at_end _ _ _ _ Hp).
    rewrite settle_returned with (how := Completed);
      simpl; [|by apply list_lookup_insert_eq].
    by rewrite !app_nil_r.
  - change (JsSet.values (Some file :: l)) with (file :: JsSet.values l).
    destruct (decide (configured env file)) as [Hcfg|Hcfg].
    + rewrite (loop_configured _ _ _ _ _ _ Hp Hcfg).
      destruct fuel as [|fuel]; [simpl in Hfuel; lia|]. simpl in Hfuel.
      simpl settle. rewrite list_lookup_insert_eq by done.
      unfold checkSettled. simpl drains. rewrite list_lookup_insert_eq by done.
      replace (S (length pre)) with (length (pre ++ [Some file]))
        by (rewrite length_app; simpl; lia).
      destruct (answers file) as [results| |error] eqn:Hr.
      * rewrite served_cons_answered by (done || by unfold answered; rewrite Hr).
        match goal with |- context [loop env ?i _ ?w2] =>
          destruct (IH (pre ++ [Some file]) w2 fuel) as (Hq & Hc & He & Hpd & Hd & Hch)
        end; simpl; [by rewrite Hp, <- (assoc_L (++)) | by rewrite length_insert | lia |].
        simpl in Hq, Hc, He, Hpd, Hd, Hch. rewrite Hq, Hc, He, Hpd, Hd, Hch.
        rewrite (stored_results _ _ _ Hr), (thrown_results _ _ Hr).
        rewrite <- !(assoc_L (++)). simpl.
        by rewrite list_insert_insert_eq.
      * rewrite served_cons_absent by done.
        rewrite !(settle_returned env answers k fuel _ NoResults)
          by (simpl; apply list_lookup_insert_eq; by rewrite length_insert).
        simpl. rewrite (stored_absent _ _ Hr), (thrown_absent _ Hr). simpl.
        by rewrite list_insert_insert_eq, Hp, app_nil_r.
      * rewrite served_cons_answered by (done || by unfold answered; rewrite Hr).
        match goal with |- context [loop env ?i _ ?w2] =>
          destruct (IH (pre ++ [Some file]) w2 fuel) as (Hq & Hc & He & Hpd & Hd & Hch)
        end; simpl; [by rewrite Hp, <- (assoc_L (++)) | by rewrite length_insert | lia |].
        simpl in Hq, Hc, He, Hpd, Hd, Hch. rewrite Hq, Hc, He, Hpd, Hd, Hch.
        rewrite (stored_throws _ _ _ Hr), (thrown_throws _ _ Hr).
        rewrite <- !(assoc_L (++)). simpl.
        by rewrite list_insert_insert_eq.
    + rewrite (loop_unconfigured _ _ _ _ _ _ Hp Hcfg).
      rewrite served_cons_unconfigured by done.
      rewrite settle_returned with (how := NoConfiguration);
        simpl; [|by apply list_lookup_insert_eq].
      by rewrite Hp, !app_nil_r.
  - rewrite (loop_skips_empty _ _ _ _ _ Hp).
    destruct (IH (pre ++ [None]) w fuel) as (Hq & Hc & He & Hpd & Hd & Hch);
      [by rewrite Hp, <- (assoc_L (++)) | done | simpl in Hfuel; lia |].
    simpl in *. rewrite Hq, Hc, He, Hpd, Hd, Hch.
    by rewrite <- !(assoc_L (++)).
Qed.

Lemma cycle_served w :
  let o := served env answers (JsSet.values (pendingDiagnostics w)) in
  requests (cycle env answers w) = requests w ++ (checkRequest env <$> o.1)
  ∧ collector (cycle env answers w) = foldl (stored answers) (collector w) o.1
  ∧ handledErrors (cycle env answers w)
    = handledErrors w ++ (o.1 ≫= thrown answers)
  ∧ pendingDiagnostics (cycle env answers w)
    = leftPending o.2 (pendingDiagnostics w)
  ∧ drains (cycle env answers w) = drains w ++ [Returned o.2]
  ∧ channel (cycle env answers w) = channel w ++ exitLog o.2.
Proof.
  rewrite cycle_unfold.
  destruct (settle_loop_served (length (drains w)) (pendingDiagnostics w) []
              (sendPendingDiagnostics w) (length (pendingDiagnostics w)))
    as (Hq & Hc & He & Hpd & Hd & Hch); simpl; try done.
  { rewrite length_app. simpl. lia. }
  simpl in *. rewrite Hq, Hc, He, Hpd, Hd, Hch. split_and!; try done.
  rewrite insert_app_r_alt, Nat.sub_diag by done. done.
Qed.


End Served.

(** ** The claims *)

(** C7.  Storing findings for the same document identity twice, first [r1]
    and then [r2], leaves exactly [r2] under that identity: each application
    deletes the entry and inserts the new findings, so nothing of [r1]
    survives and no other entry changes. *)
Theorem reconcile_replaces (file : SyncedFile) (r1 r2 : list ICheckstyleResult)
    (store : gmap Uri (list ICheckstyleResult)) :
  reconcile file r2 (reconcile file r1 store) !! realUri file = Some r2
  ∧ reconcile file r2 (reconcile file r1 store) = <[realUri file := r2]> store.
Proof.
  unfold reconcile, Collector.addDiagnostics, Collector.delete. split.
  - apply lookup_insert_eq.
  - by rewrite delete_insert_eq, !insert_delete_eq.
Qed.

(** What one step can add to the requests and to the store. *)
Lemma step_effects (env : Env) (w : World) (ev : Event) :
  (requests (step env w ev) = requests w
   ∨ ∃ k file position,
       drains (step env w ev) !! k = Some (AwaitCheck file position)
       ∧ requests (step env w ev)
         = requests w ++
           [ {| command := CheckstyleExtensionCommands.CHECK_CODE_WITH_CHECKSTYLE;
                target := toString env (syncUri file);
                configurationPath := getCheckstyleConfigurationPath env (realUri file);
                properties := getCheckstyleProperties env (realUri file) |} ])
  ∧ (collector (step env w ev) = collector w
     ∨ ∃ k file position results,
         drains w !! k = Some (AwaitCheck file position)
         ∧ ev = CheckSettled k (Results results)
         ∧ collector (step env w ev) = <[realUri file := results]> (collector w)).
Proof.
  destruct ev as [d|e|d|dt|k|k r|].
  - destruct (editor_event_untouched env w (DidOpenTextDocument d) I) as (-> & -> & _); auto.
  - destruct (editor_event_untouched env w (DidChangeTextDocument e) I) as (-> & -> & _); auto.
  - destruct (editor_event_untouched env w (DidCloseTextDocument d) I) as (-> & -> & _); auto.
  - simpl. destruct (elapse_untouched dt w) as (-> & -> & _); auto.
  - simpl. unfold flushResolved.
    destruct (drains w !! k) as [[|file position|?]|] eqn:E; auto.
    assert (Hk : k < length (drains w)) by by eapply lookup_lt_Some.
    rewrite loop_collector. split; [|by left].
    destruct (loop_requests env k 0 w Hk) as [->|(file & position & Hd & ->)]; [by left|].
    right. by exists k, file, position.
  - simpl. unfold checkSettled.
    destruct (drains w !! k) as [[|file position|?]|] eqn:E; auto.
    assert (Hk : k < length (drains w)) by by eapply lookup_lt_Some.
    destruct r as [results| |error]; [| by auto |].
    + rewrite loop_collector. simpl. split.
      * match goal with |- context [loop env ?i ?p ?w2] =>
          destruct (loop_requests env i p w2 Hk) as [->|(file' & position' & Hd & ->)]
        end; [by left|].
        right. by exists k, file', position'.
      * right. exists k, file, position, results. split_and!; [done..|].
        unfold reconcile, Collector.addDiagnostics, Collector.delete.
        by rewrite insert_delete_eq.
    + rewrite loop_collector. simpl. split; [|by left].
      match goal with |- context [loop env ?i ?p ?w2] =>
        destruct (loop_requests env i p w2 Hk) as [->|(file' & position' & Hd & ->)]
      end; [by left|].
      right. by exists k, file', position'.
  - by split; left.
Qed.






(** C2, as stated, fails: [docB] has no configuration and is pending before
    [docA], which has one.  The drain logs one line and returns; no check
    request is issued for [docA], and both files stay in the pending set. *)
Lemma missing_configuration_ends_cycle :
  let w := initialize Demo.env [Demo.docB; Demo.docA] in
  let w' := run Demo.env w [Elapse 200; FlushResolved 0] in
  JsSet.values (pendingDiagnostics w) = [Demo.synced 0 Demo.docB; Demo.synced 1 Demo.docA]
  ∧ getCheckstyleConfigurationPath Demo.env (uri Demo.docA) = "/ws/checks.xml"
  ∧ requests w' = []
  ∧ channel w' = ["Checkstyle configuration file not set yet, skip the check."]
  ∧ drains w' = [Returned NoConfiguration]
  ∧ pendingDiagnostics w' = pendingDiagnostics w.
Proof. by vm_compute. Qed.

(** C2, amended.  During a drain, when the configuration path of a file
    resolves to the empty string, the drain writes one informational log line
    and returns: the files before it in the set have got their check
    requests, neither that file nor any file after it gets one in this cycle,
    and the pending set is left as it is.  (The files before it are taken to
    have a configuration and a call that returns findings or is rejected;
    otherwise the drain has returned before it reaches the file.) *)
Theorem missing_configuration_returns (env : Env) (answers : SyncedFile → Response)
    (w : World) (before : list SyncedFile) (file : SyncedFile)
    (after : list SyncedFile) :
  JsSet.values (pendingDiagnostics w) = before ++ file :: after →
  Forall (λ f, configured env f ∧ answered answers f) before →
  getCheckstyleConfigurationPath env (realUri file) = "" →
  requests (cycle env answers w)
  = requests w ++
    ((λ f, {| command := "java.checkstyle.checkCode";
              target := toString env (syncUri f);
              configurationPath := getCheckstyleConfigurationPath env (realUri f);
              properties := getCheckstyleProperties env (realUri f) |})
       <$> before)
  ∧ channel (cycle env answers w)
    = channel w ++ ["Checkstyle configuration file not set yet, skip the check."]
  ∧ drains (cycle env answers w) = drains w ++ [Returned NoConfiguration]
  ∧ pendingDiagnostics (cycle env answers w) = pendingDiagnostics w.
Proof.
  intros Hv Hgood Hcfg.
  destruct (cycle_served env answers w) as (Hq & _ & _ & Hpd & Hd & Hch).
  rewrite Hv, (served_stops_unconfigured env answers before file after Hgood) in *;
    [|by intros Hc; apply Hc..].
  by split_and!.
Qed.

(** The theorem at three pending documents, the second without
    configuration. *)
Lemma missing_configuration_returns_witness :
  let w := initialize Demo.env [Demo.docA; Demo.docB; Demo.docC] in
  requests (cycle Demo.env Demo.answersAll w)
  = requests w ++
    ((λ f, {| command := "java.checkstyle.checkCode";
              target := toString Demo.env (syncUri f);
              configurationPath := getCheckstyleConfigurationPath Demo.env (realUri f);
              properties := getCheckstyleProperties Demo.env (realUri f) |})
       <$> [Demo.synced 0 Demo.docA])
  ∧ channel (cycle Demo.env Demo.answersAll w)
    = channel w ++ ["Checkstyle configuration file not set yet, skip the check."]
  ∧ drains (cycle Demo.env Demo.answersAll w) = drains w ++ [Returned NoConfiguration]
  ∧ pendingDiagnostics (cycle Demo.env Demo.answersAll w) = pendingDiagnostics w.
Proof.
  apply (missing_configuration_returns Demo.env Demo.answersAll _
           [Demo.synced 0 Demo.docA] (Demo.synced 1 Demo.docB)
           [Demo.synced 2 Demo.docC]).
  - reflexivity.
  - repeat (constructor; [split; vm_compute; discriminate|]). constructor.
  - reflexivity.
Defined.

(** C5.  The code at a failing input: [docC] and [docA] are pending, both
    configured, and the check call of [docC] returns nothing.  The drain logs
    one line and returns; no check request is issued for [docA], and both
    files stay in the pending set. *)
Lemma missing_result_ends_cycle :
  let w := initialize Demo.envAll [Demo.docC; Demo.docA] in
  let w' := run Demo.envAll w [Elapse 200; FlushResolved 0; CheckSettled 0 Absent] in
  JsSet.values (pendingDiagnostics w) = [Demo.synced 0 Demo.docC; Demo.synced 1 Demo.docA]
  ∧ requests w' = [checkRequest Demo.envAll (Demo.synced 0 Demo.docC)]
  ∧ channel w' = ["Unable to get results from Language Server."]
  ∧ drains w' = [Returned NoResults]
  ∧ pendingDiagnostics w' = pendingDiagnostics w.
Proof. by vm_compute. Qed.

(** C1, as stated, fails: [docA] is opened, edited and closed before the
    timer fires.  The close takes the file out of the registry, but the file
    is still in the pending set, and when the timer fires the drain issues a
    check request for the closed document. *)
Lemma closed_document_is_still_checked :
  let closed :=
    run Demo.envAll (initialize Demo.envAll [])
      [ DidOpenTextDocument Demo.docA; Elapse 50;
        DidChangeTextDocument {| document := edited Demo.rename Demo.docA;
                                 contentChanges := Demo.rename |};
        Elapse 50; DidCloseTextDocument (edited Demo.rename Demo.docA) ] in
  syncedFiles closed !! fsPath (uri Demo.docA) = None
  ∧ drains closed = []
  ∧ pendingDiagnostics closed = [Some (Demo.synced 0 Demo.docA)]
  ∧ requests (run Demo.envAll closed [Elapse 200; FlushResolved 0])
    = [checkRequest Demo.envAll (Demo.synced 0 Demo.docA)].
Proof. by vm_compute. Qed.

(** C1, amended.  The close event takes the file of the document out of the
    registry at once and releases its mirrored location, and it leaves the
    pending set and the timer as they are: a file that was pending is still
    pending after its document is closed. *)
Theorem close_leaves_pending_set (document : TextDocument) (w : World) :
  syncedFiles (onDidCloseTextDocument document w) !! fsPath (uri document) = None
  ∧ pendingDiagnostics (onDidCloseTextDocument document w) = pendingDiagnostics w
  ∧ diagnosticDelayTrigger (onDidCloseTextDocument document w) = diagnosticDelayTrigger w
  ∧ drains (onDidCloseTextDocument document w) = drains w.
Proof.
  unfold onDidCloseTextDocument.
  destruct (syncedFiles w !! fsPath (uri document)) as [file|] eqn:E; simpl.
  - by rewrite lookup_delete_eq.
  - done.
Qed.

(** C4, as stated, fails: [docA] is pending and the timer is armed when the
    manager is disposed.  After [dispose] the timer is still armed and the
    file is still pending; the timer fires and the drain issues a check
    request. *)
Lemma timer_fires_after_dispose :
  let w := run Demo.envAll (initialize Demo.envAll [Demo.docA]) [Elapse 50; Dispose] in
  let w' := run Demo.envAll w [Elapse 150; FlushResolved 0] in
  diagnosticDelayTrigger w = Some 200
  ∧ pendingDiagnostics w = [Some (Demo.synced 0 Demo.docA)]
  ∧ drains w' = [AwaitCheck (Demo.synced 0 Demo.docA) 1]
  ∧ requests w' = [checkRequest Demo.envAll (Demo.synced 0 Demo.docA)].
Proof. by vm_compute. Qed.

(** C4, amended.  [dispose] disposes the synchronizer and every listener, so
    that no editor event reaches the manager any more; it leaves the debounce
    timer, the pending set and the suspended drains as they are. *)
Theorem dispose_stops_events_only (env : Env) (w : World) :
  (∀ d, step env (dispose w) (DidOpenTextDocument d) = dispose w)
  ∧ (∀ e, step env (dispose w) (DidChangeTextDocument e) = dispose w)
  ∧ (∀ d, step env (dispose w) (DidCloseTextDocument d) = dispose w)
  ∧ synchronizer (dispose w) = Sync.dispose (synchronizer w)
  ∧ diagnosticDelayTrigger (dispose w) = diagnosticDelayTrigger w
  ∧ pendingDiagnostics (dispose w) = pendingDiagnostics w
  ∧ drains (dispose w) = drains w.
Proof.
  split_and!; try done; intros ?; simpl; by rewrite subscribed_dispose.
Qed.


(** ** Debouncing a burst of edits *)



Section Debounce.
Context (env : Env).
Implicit Types (w : World) (file : SyncedFile) (d : TextDocument).




End Debounce.




(** ** Further properties of the manager *)

Section Opening.
Context (env : Env).
Implicit Types (w : World) (d : TextDocument).

Lemma open_turned_away d w :
  accepted d = false → onDidOpenTextDocument env d w = w.
Proof.
  unfold accepted, onDidOpenTextDocument. by intros ->.
Qed.

Lemma open_tracked d w :
  is_Some (syncedFiles w !! fsPath (uri d)) → onDidOpenTextDocument env d w = w.
Proof.
  intros Hs. unfold onDidOpenTextDocument. destruct (negb _); [done|].
  by rewrite bool_decide_eq_true_2.
Qed.

Lemma open_new d w :
  accepted d = true → syncedFiles w !! fsPath (uri d) = None →
  onDidOpenTextDocument env d w
  = requestDiagnostic (newSyncedFile env d w)
      (with_synchronizer
         (Sync.open (newSyncedFile env d w) (getText d) (synchronizer w))
         (with_syncedFiles
            (<[fsPath (uri d) := newSyncedFile env d w]> (syncedFiles w))
            (with_allocated (S (allocated w)) w))).
Proof.
  unfold accepted, onDidOpenTextDocument. intros -> Hnone. simpl.
  rewrite bool_decide_eq_false_2; [done|]. rewrite Hnone. by intros [? ?].
Qed.

(** X1.  Documents that are not Java files on disk play no part in
    [initialize]: starting with them is starting without them. *)
Theorem initialize_ignores_other_documents (textDocuments : list TextDocument) :
  initialize env textDocuments
  = initialize env (filter (λ d, accepted d) textDocuments).
Proof.
  unfold initialize. generalize
    {| listeners := [ {| event := OnDidOpen; active := true |};
                      {| event := OnDidChange; active := true |};
                      {| event := OnDidClose; active := true |} ];
       pendingDiagnostics := []; syncedFiles := ∅; synchronizer := Sync.create;
       diagnosticDelayTrigger := None; clock := 0; allocated := 0; drains := [];
       requests := []; collector := ∅; channel := []; statusShown := 0;
       handledErrors := [] |}.
  induction textDocuments as [|d ds IH]; intros w0; [done|].
  destruct (accepted d) eqn:E.
  - rewrite filter_cons_True by (simpl; by rewrite E). simpl. apply IH.
  - rewrite filter_cons_False by (simpl; rewrite E; tauto). simpl.
    rewrite open_turned_away by done. apply IH.
Qed.

(** X2.  Opening a document again, at any later time, changes nothing: no
    second [SyncedFile] is made for the path, nothing is queued, and the
    timer is left as it is, whether it is still running or has fired. *)
Theorem open_twice_is_open_once d w (dt : nat) :
  onDidOpenTextDocument env d (elapse dt (onDidOpenTextDocument env d w))
  = elapse dt (onDidOpenTextDocument env d w).
Proof.
  destruct (accepted d) eqn:E; [|by rewrite !open_turned_away].
  apply open_tracked.
  assert (Hreg : is_Some (syncedFiles (onDidOpenTextDocument env d w) !! fsPath (uri d))).
  { destruct (syncedFiles w !! fsPath (uri d)) as [f|] eqn:Hf.
    - rewrite open_tracked; by eexists.
    - rewrite open_new by done. simpl. rewrite lookup_insert_eq. by eexists. }
  unfold elapse.
  destruct (diagnosticDelayTrigger _) as [due|]; [case_bool_decide|]; done.
Qed.

End Opening.

Section OpenAndClose.
Context (env : Env).
Implicit Types (w : World) (d : TextDocument).

(** X3.  Opening a Java file that is not registered and closing it again:
    the open files the new [SyncedFile] under the path of the document and
    the close restores the registry exactly, while the file that was queued
    by the open stays in the pending set with the timer armed. *)
Theorem open_close_round_trip d w :
  accepted d = true →
  syncedFiles w !! fsPath (uri d) = None →
  syncedFiles (onDidOpenTextDocument env d w) !! fsPath (uri d)
  = Some (newSyncedFile env d w)
  ∧ syncedFiles (onDidCloseTextDocument d (onDidOpenTextDocument env d w))
    = syncedFiles w
  ∧ pendingDiagnostics (onDidCloseTextDocument d (onDidOpenTextDocument env d w))
    = JsSet.add (newSyncedFile env d w) (pendingDiagnostics w)
  ∧ diagnosticDelayTrigger (onDidCloseTextDocument d (onDidOpenTextDocument env d w))
    = Some (clock w + wait).
Proof.
  intros Hacc Hnone. rewrite open_new by done.
  unfold onDidCloseTextDocument. simpl. rewrite lookup_insert_eq. simpl.
  split_and!; try done. by apply delete_insert_id.
Qed.

(** X4.  After a document is closed, a change event for its path is
    ignored: nothing is queued and the timer is not restarted. *)
Theorem change_after_close_is_ignored (e : TextDocumentChangeEvent) d w :
  fsPath (uri (document e)) = fsPath (uri d) →
  onDidChangeTextDocument e (onDidCloseTextDocument d w)
  = onDidCloseTextDocument d w.
Proof.
  intros Hpath. unfold onDidChangeTextDocument. rewrite Hpath.
  unfold onDidCloseTextDocument.
  destruct (syncedFiles w !! fsPath (uri d)) as [f|] eqn:E; simpl.
  - by rewrite lookup_delete_eq.
  - by rewrite E.
Qed.

End OpenAndClose.

Lemma open_close_round_trip_witness :
  let w := initialize Demo.envAll [Demo.docA] in
  syncedFiles (onDidOpenTextDocument Demo.envAll Demo.docB w) !! fsPath (uri Demo.docB)
  = Some (newSyncedFile Demo.envAll Demo.docB w)
  ∧ syncedFiles (onDidCloseTextDocument Demo.docB
                   (onDidOpenTextDocument Demo.envAll Demo.docB w))
    = syncedFiles w
  ∧ pendingDiagnostics (onDidCloseTextDocument Demo.docB
                          (onDidOpenTextDocument Demo.envAll Demo.docB w))
    = JsSet.add (newSyncedFile Demo.envAll Demo.docB w) (pendingDiagnostics w)
  ∧ diagnosticDelayTrigger (onDidCloseTextDocument Demo.docB
                              (onDidOpenTextDocument Demo.envAll Demo.docB w))
    = Some (clock w + wait).
Proof.
  apply (open_close_round_trip Demo.envAll Demo.docB (initialize Demo.envAll [Demo.docA]));
    reflexivity.
Defined.

Lemma change_after_close_is_ignored_witness :
  let w := initialize Demo.envAll [Demo.docA] in
  let e := {| document := edited Demo.rename Demo.docA;
              contentChanges := Demo.rename |} in
  onDidChangeTextDocument e (onDidCloseTextDocument Demo.docA w)
  = onDidCloseTextDocument Demo.docA w.
Proof.
  apply (change_after_close_is_ignored
           {| document := edited Demo.rename Demo.docA;
              contentChanges := Demo.rename |}
           Demo.docA (initialize Demo.envAll [Demo.docA])).
  reflexivity.
Defined.

(** ** Drains and the timer *)

Lemma host_step_keeps_balance (env : Env) (w : World) (ev : Event) :
  hostEvent ev = true →
  length (drains (step env w ev)) + armed (step env w ev)
  = length (drains w) + armed w.
Proof.
  destruct ev as [| | |dt|k|k r|]; try done; intros _; simpl.
  - unfold elapse, armed. destruct (diagnosticDelayTrigger w) as [due|] eqn:Ht.
    + case_bool_decide; simpl; rewrite ?Ht; [|done].
      rewrite length_app. simpl. lia.
    + simpl. by rewrite Ht.
  - unfold flushResolved. destruct (drains w !! k) as [[| |]|]; try done.
    destruct (loop_outcome env k 0 w); unfold armed; simpl;
      by rewrite length_insert.
  - unfold checkSettled. destruct (drains w !! k) as [[|file position|]|]; try done.
    destruct r as [results| |error].
    + match goal with |- context [loop env ?i ?p ?w2] =>
        destruct (loop_outcome env i p w2)
      end; unfold armed; simpl; by rewrite length_insert.
    + unfold armed. simpl. by rewrite length_insert.
    + match goal with |- context [loop env ?i ?p ?w2] =>
        destruct (loop_outcome env i p w2)
      end; unfold armed; simpl; by rewrite length_insert.
Qed.

(** X6.  There is no retry: without an editor event, the only call of
    [sendPendingDiagnostics] that can start is the one an armed timer owes.
    Over any sequence of elapsed time and settled promises the number of
    calls started so far plus the armed timer does not change, because no
    step of a drain, an early return included, arms the timer. *)
Theorem no_drain_without_editor_event (env : Env) (w : World) (evs : list Event) :
  Forall (λ ev, hostEvent ev = true) evs →
  length (drains (run env w evs)) + armed (run env w evs)
  = length (drains w) + armed w.
Proof.
  intros Hevs. revert w. induction Hevs as [|ev evs Hev _ IH]; intros w; [done|].
  simpl. rewrite (IH (step env w ev)). by apply host_step_keeps_balance.
Qed.

(** The theorem after an early return that left two files pending: however
    long the wait, no second call starts. *)
Lemma no_drain_without_editor_event_witness :
  let w := run Demo.env (initialize Demo.env [Demo.docB; Demo.docA])
             [Elapse 200; FlushResolved 0] in
  let evs := [Elapse 3000; FlushResolved 0; CheckSettled 0 Absent; Elapse 1] in
  (JsSet.values (pendingDiagnostics w)
   = [Demo.synced 0 Demo.docB; Demo.synced 1 Demo.docA]
   ∧ drains w = [Returned NoConfiguration] ∧ armed w = 0)
  ∧ length (drains (run Demo.env w evs)) + armed (run Demo.env w evs)
    = length (drains w) + armed w.
Proof.
  split; [by vm_compute|].
  apply (no_drain_without_editor_event Demo.env
           (run Demo.env (initialize Demo.env [Demo.docB; Demo.docA])
              [Elapse 200; FlushResolved 0])
           [Elapse 3000; FlushResolved 0; CheckSettled 0 Absent; Elapse 1]).
  repeat constructor.
Defined.

(** X7.  Closing and reopening a document within the quiet period: the
    reopening makes a second [SyncedFile] for the same path, the first one is
    still in the pending set, and the set compares objects, so the next drain
    sends the same check request twice. *)
Theorem reopen_is_checked_twice (env : Env) (answers : SyncedFile → Response)
    (d : TextDocument) (w : World) :
  let first := newSyncedFile env d w in
  let second := newSyncedFile env d (with_allocated (S (allocated w)) w) in
  let w' := onDidOpenTextDocument env d
              (onDidCloseTextDocument d (onDidOpenTextDocument env d w)) in
  accepted d = true →
  syncedFiles w !! fsPath (uri d) = None →
  (∀ g, Some g ∈ pendingDiagnostics w → oid g < allocated w) →
  Forall (λ f, configured env f ∧ answered answers f)
         (JsSet.values (pendingDiagnostics w) ++ [first; second]) →
  pendingDiagnostics w' = pendingDiagnostics w ++ [Some first; Some second]
  ∧ first ≠ second
  ∧ checkRequest env first = checkRequest env second
  ∧ requests (cycle env answers w')
    = requests w ++ (checkRequest env <$> JsSet.values (pendingDiagnostics w))
      ++ [checkRequest env first; checkRequest env first].
Proof.
  intros first second w' Hacc Hnone Hfresh Hgood.
  assert (Hfirst : Some first ∉ pendingDiagnostics w).
  { intros Hin. apply Hfresh in Hin. simpl in Hin. lia. }
  assert (Hsecond : Some second ∉ pendingDiagnostics w ++ [Some first]).
  { rewrite elem_of_app, list_elem_of_singleton. intros [Hin|[=]]; [|lia].
    apply Hfresh in Hin. simpl in Hin. lia. }
  assert (Hp : pendingDiagnostics w'
               = pendingDiagnostics w ++ [Some first; Some second]).
  { unfold w'. rewrite (open_new env d w) by done.
    unfold onDidCloseTextDocument. simpl. rewrite lookup_insert_eq. simpl.
    rewrite open_new; [|done|simpl; by apply lookup_delete_eq]. simpl.
    fold first. rewrite (add_fresh first) by done.
    change (newSyncedFile env d _) with second.
    rewrite (add_fresh second) by done. by rewrite <- (assoc_L (++)). }
  split_and!; [done | by intros [=]; lia | done |].
  destruct (cycle_good env answers w') as (Hq & _).
  - by rewrite Hp, values_app.
  - rewrite Hq, Hp, values_app, fmap_app. simpl.
    unfold w'. rewrite (open_new env d w) by done.
    unfold onDidCloseTextDocument. simpl. rewrite lookup_insert_eq. simpl.
    by rewrite open_new; [|done|simpl; by apply lookup_delete_eq].
Qed.

Lemma reopen_is_checked_twice_witness :
  let w := initialize Demo.envAll [Demo.docA] in
  let w' := onDidOpenTextDocument Demo.envAll Demo.docB
              (onDidCloseTextDocument Demo.docB
                 (onDidOpenTextDocument Demo.envAll Demo.docB w)) in
  pendingDiagnostics w'
  = pendingDiagnostics w ++ [Some (Demo.synced 1 Demo.docB); Some (Demo.synced 2 Demo.docB)]
  ∧ Demo.synced 1 Demo.docB ≠ Demo.synced 2 Demo.docB
  ∧ checkRequest Demo.envAll (Demo.synced 1 Demo.docB)
    = checkRequest Demo.envAll (Demo.synced 2 Demo.docB)
  ∧ requests (cycle Demo.envAll Demo.answersAll w')
    = requests w ++ (checkRequest Demo.envAll <$> JsSet.values (pendingDiagnostics w))
      ++ [checkRequest Demo.envAll (Demo.synced 1 Demo.docB);
          checkRequest Demo.envAll (Demo.synced 1 Demo.docB)].
Proof.
  apply (reopen_is_checked_twice Demo.envAll Demo.answersAll Demo.docB
           (initialize Demo.envAll [Demo.docA])).
  - reflexivity.
  - reflexivity.
  - vm_compute. intros g Hin. apply list_elem_of_singleton in Hin.
    injection Hin as ->. simpl. lia.
  - vm_compute. repeat (constructor; [split; discriminate|]). constructor.
Defined.

(** ** What every reachable world satisfies *)

Section Counting.
Implicit Types (p : Drain → bool) (ds : list Drain).

Lemma tally_app p ds1 ds2 : tally p (ds1 ++ ds2) = tally p ds1 + tally p ds2.
Proof. unfold tally. by rewrite List.filter_app, length_app. Qed.

Lemma tally_cons p d ds : tally p (d :: ds) = Nat.b2n (p d) + tally p ds.
Proof. unfold tally. simpl. by destruct (p d). Qed.

Lemma tally_insert p ds k old new :
  ds !! k = Some old →
  tally p (<[k := new]> ds) + Nat.b2n (p old) = tally p ds + Nat.b2n (p new).
Proof.
  revert k. induction ds as [|d ds IH]; intros [|k]; simpl; try done.
  - intros [= ->]. rewrite !tally_cons. lia.
  - intros Hk. rewrite !tally_cons. specialize (IH k Hk). lia.
Qed.

End Counting.

Section SetSize.
Context {A : Type} `{EqDecision A}.
Implicit Types (s l : list (option A)) (x : A).

Lemma elem_of_add x y s : Some y ∈ JsSet.add x s ↔ y = x ∨ Some y ∈ s.
Proof.
  destruct (decide (Some x ∈ s)) as [Hin|Hin].
  - rewrite add_present by done. split; [auto|]. by intros [->|?].
  - rewrite add_fresh by done. rewrite elem_of_app, list_elem_of_singleton.
    split; [intros [?|[= ->]]; auto | intros [->|?]; auto].
Qed.

Lemma length_add x s : length s ≤ length (JsSet.add x s).
Proof.
  unfold JsSet.add. destruct (JsSet.has x s); [done|].
  rewrite length_app. lia.
Qed.

Lemma length_clear s : length (JsSet.clear s) = length s.
Proof. apply length_fmap. Qed.

Lemma clear_holds_nothing x s : Some x ∉ JsSet.clear s.
Proof. unfold JsSet.clear. rewrite list_elem_of_fmap. by intros (? & [=] & _). Qed.

Lemma next_from_bound l i x j :
  JsSet.next_from l i = Some (x, j) → j ≤ i + length l ∧ 0 < length l.
Proof.
  revert i. induction l as [|[y|] l IH]; intros i; simpl; [done| |].
  - intros [= -> <-]. lia.
  - intros Hn. apply IH in Hn. lia.
Qed.

Lemma next_bound s i x j : JsSet.next s i = Some (x, j) → j ≤ length s.
Proof.
  unfold JsSet.next. intros Hn. apply next_from_bound in Hn.
  rewrite length_drop in Hn. lia.
Qed.

End SetSize.

Section Coherence.
Context (env : Env).
Implicit Types (w : World) (k : nat).

Lemma loop_coherent k position w d0 :
  drains w !! k = Some d0 →
  returned d0 = false →
  (∀ p f, syncedFiles w !! p = Some f →
     fsPath (realUri f) = p ∧ scheme (realUri f) = "file"
     ∧ syncUri f = mirrorLocation env (realUri f) ∧ oid f < allocated w) →
  (∀ f, Some f ∈ pendingDiagnostics w → oid f < allocated w) →
  NoDup (JsSet.values (pendingDiagnostics w)) →
  (∀ k' f p, k' ≠ k → drains w !! k' = Some (AwaitCheck f p) →
     p ≤ length (pendingDiagnostics w)) →
  (∀ r, r ∈ requests w →
     command r = CheckstyleExtensionCommands.CHECK_CODE_WITH_CHECKSTYLE
     ∧ configurationPath r ≠ "") →
  length (requests w) + Nat.b2n (inFlight d0)
  = tally inFlight (drains w) + statusShown w + length (handledErrors w)
    + tally unanswered (drains w) →
  length (channel w) = tally returnedEarly (drains w) →
  Coherent env (loop env k position w).
Proof.
  intros Hd Hlive Hreg Hfresh Honce Hpos Hreq Hacc Hlog.
  assert (Hk : k < length (drains w)) by by eapply lookup_lt_Some.
  assert (HU : unanswered d0 = false) by by destruct d0.
  assert (HE : returnedEarly d0 = false) by by destruct d0.
  unfold loop. destruct (JsSet.next _ _) as [[file position']|] eqn:Hn.
  - case_bool_decide as Hcfg.
    + pose proof (tally_insert inFlight _ k d0 (Returned NoConfiguration) Hd) as HI.
      pose proof (tally_insert unanswered _ k d0 (Returned NoConfiguration) Hd) as HUn.
      pose proof (tally_insert returnedEarly _ k d0 (Returned NoConfiguration) Hd) as HEa.
      rewrite HU in HUn. rewrite HE in HEa. simpl in HI, HUn, HEa.
      split; simpl; try done.
      * intros k' f p. destruct (decide (k' = k)) as [->|Hne].
        -- by rewrite list_lookup_insert_eq.
        -- rewrite list_lookup_insert_ne by done. by apply Hpos.
      * lia.
      * rewrite length_app. simpl. lia.
    + pose proof (tally_insert inFlight _ k d0 (AwaitCheck file position') Hd) as HI.
      pose proof (tally_insert unanswered _ k d0 (AwaitCheck file position') Hd) as HUn.
      pose proof (tally_insert returnedEarly _ k d0 (AwaitCheck file position') Hd) as HEa.
      rewrite HU in HUn. rewrite HE in HEa. simpl in HI, HUn, HEa.
      split; simpl; try done.
      * intros k' f p. destruct (decide (k' = k)) as [->|Hne].
        -- rewrite list_lookup_insert_eq by done. intros [= <- <-].
           by eapply next_bound.
        -- rewrite list_lookup_insert_ne by done. by apply Hpos.
      * intros r. rewrite elem_of_app, list_elem_of_singleton.
        intros [Hr| ->]; [by apply Hreq | done].
      * rewrite length_app. simpl. lia.
      * lia.
  - pose proof (tally_insert inFlight _ k d0 (Returned Completed) Hd) as HI.
    pose proof (tally_insert unanswered _ k d0 (Returned Completed) Hd) as HUn.
    pose proof (tally_insert returnedEarly _ k d0 (Returned Completed) Hd) as HEa.
    rewrite HU in HUn. rewrite HE in HEa. simpl in HI, HUn, HEa.
    split; simpl; try done.
    + intros f Hin. by apply clear_holds_nothing in Hin.
    + rewrite values_clear. apply NoDup_nil_2.
    + intros k' f p. rewrite length_clear. destruct (decide (k' = k)) as [->|Hne].
      * by rewrite list_lookup_insert_eq.
      * rewrite list_lookup_insert_ne by done. by apply Hpos.
    + lia.
    + lia.
Qed.

Lemma requestDiagnostic_coherent file w :
  Coherent env w → oid file < allocated w →
  Coherent env (requestDiagnostic file w).
Proof.
  intros [Hreg Hfresh Honce Hpos Hreq Hacc Hlog] Hoid.
  split; simpl; try done.
  - intros f [->|Hin]%elem_of_add; [done | by apply Hfresh].
  - by apply add_NoDup.
  - intros k f p Hd. etrans; [by eapply Hpos | apply length_add].
Qed.

Lemma onDidOpenTextDocument_coherent d w :
  Coherent env w → Coherent env (onDidOpenTextDocument env d w).
Proof.
  intros Hc. destruct (accepted d) eqn:Hacc; [|by rewrite open_turned_away].
  destruct (syncedFiles w !! fsPath (uri d)) as [f|] eqn:Hf.
  { rewrite open_tracked; [done | by eexists]. }
  rewrite open_new by done. apply requestDiagnostic_coherent; [|simpl; lia].
  destruct Hc as [Hreg Hfresh Honce Hpos Hreq Hacc' Hlog].
  split; simpl; try done.
  - intros p f. rewrite lookup_insert. case_decide as Hp.
    + intros [= <-]. simpl. split_and!; [done| |done|lia].
      unfold accepted in Hacc. apply andb_true_iff in Hacc as [_ Hs].
      by apply bool_decide_eq_true in Hs.
    + intros Hin. destruct (Hreg p f Hin) as (? & ? & ? & ?). split_and!; [done..|lia].
  - intros f Hin. apply Hfresh in Hin. lia.
Qed.

Lemma onDidChangeTextDocument_coherent e w :
  Coherent env w → Coherent env (onDidChangeTextDocument e w).
Proof.
  intros Hc. unfold onDidChangeTextDocument.
  destruct (syncedFiles w !! _) as [f|] eqn:Hf; [|done].
  apply requestDiagnostic_coherent.
  - by destruct Hc.
  - simpl. by destruct (coh_registry env w Hc _ _ Hf) as (_ & _ & _ & ?).
Qed.

Lemma onDidCloseTextDocument_coherent d w :
  Coherent env w → Coherent env (onDidCloseTextDocument d w).
Proof.
  intros Hc. unfold onDidCloseTextDocument.
  destruct (syncedFiles w !! _) as [f|] eqn:Hf; [|done].
  destruct Hc as [Hreg Hfresh Honce Hpos Hreq Hacc Hlog].
  split; simpl; try done.
  intros p g [_ Hin]%lookup_delete_Some. by apply Hreg.
Qed.

Lemma elapse_coherent dt w : Coherent env w → Coherent env (elapse dt w).
Proof.
  intros [Hreg Hfresh Honce Hpos Hreq Hacc Hlog]. unfold elapse.
  destruct (diagnosticDelayTrigger w) as [due|]; [case_bool_decide|];
    split; simpl; try done.
  - intros k f p [Hd|[_ Hd]]%lookup_app_Some; [by eapply Hpos|].
    by destruct (k - length (drains w)).
  - rewrite !tally_app. unfold tally at 2 4. simpl. lia.
  - rewrite tally_app. unfold tally at 2. simpl. lia.
Qed.

Lemma dispose_coherent w : Coherent env w → Coherent env (dispose w).
Proof. by intros []. Qed.

Lemma flushResolved_coherent k w :
  Coherent env w → Coherent env (flushResolved env k w).
Proof.
  intros Hc. unfold flushResolved.
  destruct (drains w !! k) as [[| |]|] eqn:Hd; try done.
  destruct Hc as [Hreg Hfresh Honce Hpos Hreq Hacc Hlog].
  apply (loop_coherent k 0 w AwaitFlush); try done.
  - intros k' f p _. apply Hpos.
  - simpl. lia.
Qed.

Lemma checkSettled_coherent k r w :
  Coherent env w → Coherent env (checkSettled env k r w).
Proof.
  intros Hc. unfold checkSettled.
  destruct (drains w !! k) as [[|file position|]|] eqn:Hd; try done.
  destruct Hc as [Hreg Hfresh Honce Hpos Hreq Hacc Hlog].
  pose proof (tally_insert inFlight _ k _ (Returned NoResults) Hd) as HI.
  pose proof (tally_insert unanswered _ k _ (Returned NoResults) Hd) as HUn.
  pose proof (tally_insert returnedEarly _ k _ (Returned NoResults) Hd) as HEa.
  simpl in HI, HUn, HEa.
  destruct r as [results| |error].
  - apply (loop_coherent k position _ (AwaitCheck file position)); simpl; try done.
    + intros k' f p _. apply Hpos.
    + lia.
  - split; simpl; try done.
    + intros k' f p. destruct (decide (k' = k)) as [->|Hne].
      * rewrite list_lookup_insert_eq; [done | by eapply lookup_lt_Some].
      * rewrite list_lookup_insert_ne by done. apply Hpos.
    + lia.
    + rewrite length_app. simpl. lia.
  - apply (loop_coherent k position _ (AwaitCheck file position)); simpl; try done.
    + intros k' f p _. apply Hpos.
    + rewrite length_app. simpl. lia.
Qed.

Lemma step_coherent w ev : Coherent env w → Coherent env (step env w ev).
Proof.
  intros Hc. destruct ev as [d|e|d|dt|k|k r|]; simpl.
  - destruct (subscribed _ _); [by apply onDidOpenTextDocument_coherent | done].
  - destruct (subscribed _ _); [by apply onDidChangeTextDocument_coherent | done].
  - destruct (subscribed _ _); [by apply onDidCloseTextDocument_coherent | done].
  - by apply elapse_coherent.
  - by apply flushResolved_coherent.
  - by apply checkSettled_coherent.
  - by apply dispose_coherent.
Qed.

Lemma initialize_coherent textDocuments : Coherent env (initialize env textDocuments).
Proof.
  unfold initialize.
  match goal with |- Coherent env (foldl _ ?w0 _) =>
    assert (H0 : Coherent env w0); [|revert H0; generalize w0]
  end.
  - split; simpl; try done.
    + intros f Hin. by apply elem_of_nil in Hin.
    + apply NoDup_nil_2.
    + intros r Hin. by apply elem_of_nil in Hin.
  - induction textDocuments as [|d ds IH]; intros w0 H0; [done|].
    simpl. by apply IH, onDidOpenTextDocument_coherent.
Qed.

Lemma reached_coherent textDocuments evs :
  Coherent env (reached env textDocuments evs).
Proof.
  unfold reached, run. induction evs as [|ev evs IH] using rev_ind.
  - apply initialize_coherent.
  - rewrite foldl_app. simpl. by apply step_coherent.
Qed.

End Coherence.

(** X8.  Whatever documents were open at the start and whatever events
    followed, every request that was sent is a check command with a
    configuration path that is not empty. *)
Theorem every_request_is_configured (env : Env) (textDocuments : list TextDocument)
    (evs : list Event) :
  Forall (λ r, command r = "java.checkstyle.checkCode" ∧ configurationPath r ≠ "")
         (requests (reached env textDocuments evs)).
Proof.
  apply Forall_forall. intros r Hr.
  by apply (coh_requests env _ (reached_coherent env textDocuments evs)).
Qed.

(** X9.  Every request is accounted for, in every reachable world: the
    number of requests sent is the number of check calls in flight, plus the
    calls whose findings were stored, plus the rejected calls that reached
    the error handler, plus the calls that returned nothing. *)
Theorem requests_are_accounted_for (env : Env) (textDocuments : list TextDocument)
    (evs : list Event) :
  length (requests (reached env textDocuments evs))
  = tally inFlight (drains (reached env textDocuments evs))
    + statusShown (reached env textDocuments evs)
    + length (handledErrors (reached env textDocuments evs))
    + tally unanswered (drains (reached env textDocuments evs)).
Proof. apply (coh_accounting env), reached_coherent. Qed.

(** X10.  The output channel holds one line per drain that returned early,
    and nothing else, in every reachable world. *)
Theorem one_log_line_per_early_return (env : Env) (textDocuments : list TextDocument)
    (evs : list Event) :
  length (channel (reached env textDocuments evs))
  = tally returnedEarly (drains (reached env textDocuments evs)).
Proof. apply (coh_log env), reached_coherent. Qed.

(** X11.  In every reachable world a registered [SyncedFile] is filed under
    the path of its own document, that document has the scheme [file], and
    its mirrored location is the one the synchronizer assigns to it. *)
Theorem registry_is_keyed_by_own_path (env : Env) (textDocuments : list TextDocument)
    (evs : list Event) :
  map_Forall
    (λ p f, fsPath (realUri f) = p ∧ scheme (realUri f) = "file"
            ∧ syncUri f = mirrorLocation env (realUri f))
    (syncedFiles (reached env textDocuments evs)).
Proof.
  intros p f Hf.
  destruct (coh_registry env _ (reached_coherent env textDocuments evs) p f Hf)
    as (? & ? & ? & _).
  done.
Qed.

Section Startup.
Context (env : Env).
Implicit Types (w : World) (d : TextDocument).

Lemma initialize_snoc (ds : list TextDocument) d :
  initialize env (ds ++ [d]) = onDidOpenTextDocument env d (initialize env ds).
Proof. unfold initialize. by rewrite foldl_app. Qed.

Lemma startup_invariant (ds : list TextDocument) :
  (∀ f, Some f ∈ pendingDiagnostics (initialize env ds)
        ↔ ∃ p, syncedFiles (initialize env ds) !! p = Some f)
  ∧ (∀ p, is_Some (syncedFiles (initialize env ds) !! p)
          ↔ ∃ d, d ∈ ds ∧ accepted d = true ∧ fsPath (uri d) = p)
  ∧ diagnosticDelayTrigger (initialize env ds)
    = (if decide (syncedFiles (initialize env ds) = ∅) then None else Some wait)
  ∧ clock (initialize env ds) = 0
  ∧ drains (initialize env ds) = []
  ∧ requests (initialize env ds) = [].
Proof.
  induction ds as [|d ds IH] using rev_ind.
  - split_and!; try done.
    + intros f. split; [by intros ?%elem_of_nil | by intros [p ?]].
    + intros p. split; [by intros [? ?] | by intros (d & ?%elem_of_nil & _)].
  - destruct IH as (Hq & Hkeys & Htimer & Hclock & Hdr & Hrq).
    rewrite initialize_snoc. set (w := initialize env ds) in *.
    assert (Hold : ∀ p, (∃ d', d' ∈ ds ∧ accepted d' = true ∧ fsPath (uri d') = p)
                        → ∃ d', d' ∈ ds ++ [d] ∧ accepted d' = true ∧ fsPath (uri d') = p).
    { intros p (d' & ? & ? & ?). exists d'. rewrite elem_of_app. auto. }
    destruct (accepted d) eqn:Hacc.
    + destruct (syncedFiles w !! fsPath (uri d)) as [f0|] eqn:Hf.
      * rewrite open_tracked by by eexists. split_and!; try done.
        intros p. rewrite Hkeys. split; [by apply Hold|].
        intros (d' & [Hin| ->%list_elem_of_singleton]%elem_of_app & Ha & Hp).
        -- by exists d'.
        -- apply Hkeys. rewrite <- Hp. by eexists.
      * rewrite open_new by done. simpl. split_and!; try done.
        -- intros f. rewrite elem_of_add, Hq. split.
           ++ intros [->|[p Hp]].
              ** exists (fsPath (uri d)). apply lookup_insert_eq.
              ** exists p. rewrite lookup_insert_ne; [done|].
                 intros <-. congruence.
           ++ intros [p Hp]. rewrite lookup_insert in Hp.
              destruct (decide (fsPath (uri d) = p)).
              ** left. injection Hp as Hp'. by rewrite <- Hp'.
              ** right. by exists p.
        -- intros p. rewrite lookup_insert.
           destruct (decide (fsPath (uri d) = p)) as [Hp|Hp].
           ++ split; [|by intros _; eexists]. intros _. exists d.
              rewrite elem_of_app, list_elem_of_singleton. auto.
           ++ rewrite Hkeys. split; [by apply Hold|].
              intros (d' & [Hin| ->%list_elem_of_singleton]%elem_of_app & Ha & Hp');
                [by exists d' | done].
        -- rewrite Hclock. rewrite decide_False; [done|]. apply insert_non_empty.
    + rewrite open_turned_away by done. split_and!; try done.
      intros p. rewrite Hkeys. split; [by apply Hold|].
      intros (d' & [Hin| ->%list_elem_of_singleton]%elem_of_app & Ha & Hp);
        [by exists d' | congruence].
Qed.

End Startup.

(** X13.  After [initialize] the registry holds exactly the paths of the
    open Java files, the pending set holds exactly the registered files, no
    request has been sent, and the timer is armed, at 200 ms, exactly when a
    file was registered. *)
Theorem startup_queues_every_java_file (env : Env) (textDocuments : list TextDocument) :
  (∀ p, is_Some (syncedFiles (initialize env textDocuments) !! p)
        ↔ ∃ d, d ∈ textDocuments ∧ accepted d = true ∧ fsPath (uri d) = p)
  ∧ (∀ f, Some f ∈ pendingDiagnostics (initialize env textDocuments)
          ↔ ∃ p, syncedFiles (initialize env textDocuments) !! p = Some f)
  ∧ diagnosticDelayTrigger (initialize env textDocuments)
    = (if decide (syncedFiles (initialize env textDocuments) = ∅)
       then None else Some 200)
  ∧ drains (initialize env textDocuments) = []
  ∧ requests (initialize env textDocuments) = [].
Proof.
  destruct (startup_invariant env textDocuments) as (Hq & Hkeys & Htimer & _ & Hdr & Hrq).
  by split_and!.
Qed.

(** ** The request behind every awaited check call *)

Section Awaited.
Context (env : Env).
Implicit Types (w : World) (k : nat).

Lemma loop_keeps_awaited k0 position w :
  k0 < length (drains w) →
  (∀ k f p, k ≠ k0 → drains w !! k = Some (AwaitCheck f p) →
     checkRequest env f ∈ requests w) →
  ∀ k f p, drains (loop env k0 position w) !! k = Some (AwaitCheck f p) →
    checkRequest env f ∈ requests (loop env k0 position w).
Proof.
  intros Hk0 Hinv k f p.
  destruct (loop_outcome env k0 position w) as [|file0 Hcfg|file0 position0 Hcfg];
    simpl; destruct (decide (k = k0)) as [->|Hne];
    rewrite ?list_lookup_insert_eq, ?list_lookup_insert_ne by done; try done.
  - by apply Hinv.
  - by apply Hinv.
  - intros [= <- <-]. rewrite elem_of_app. right. apply list_elem_of_here.
  - intros Hd. rewrite elem_of_app. left. by apply (Hinv k f p).
Qed.

Lemma step_keeps_awaited w ev :
  (∀ k f p, drains w !! k = Some (AwaitCheck f p) → checkRequest env f ∈ requests w) →
  ∀ k f p, drains (step env w ev) !! k = Some (AwaitCheck f p) →
    checkRequest env f ∈ requests (step env w ev).
Proof.
  intros Hinv. destruct ev as [d|e|d|dt|k0|k0 r|].
  - destruct (editor_event_untouched env w (DidOpenTextDocument d) I) as (-> & _ & ->).
    apply Hinv.
  - destruct (editor_event_untouched env w (DidChangeTextDocument e) I) as (-> & _ & ->).
    apply Hinv.
  - destruct (editor_event_untouched env w (DidCloseTextDocument d) I) as (-> & _ & ->).
    apply Hinv.
  - simpl. destruct (elapse_untouched dt w) as (-> & _ & _).
    intros k f p. unfold elapse.
    destruct (diagnosticDelayTrigger w) as [due|]; [case_bool_decide|]; simpl;
      try apply Hinv.
    intros [Hd|[_ Hd]]%lookup_app_Some; [by eapply Hinv|].
    by destruct (k - length (drains w)).
  - simpl. unfold flushResolved.
    destruct (drains w !! k0) as [[| |]|] eqn:Hd; try apply Hinv.
    apply loop_keeps_awaited; [by eapply lookup_lt_Some|].
    intros k f p _. apply Hinv.
  - simpl. unfold checkSettled.
    destruct (drains w !! k0) as [[|file position|]|] eqn:Hd; try apply Hinv.
    assert (Hk0 : k0 < length (drains w)) by by eapply lookup_lt_Some.
    destruct r as [results| |error].
    + apply loop_keeps_awaited; [done|]. intros k f p _. apply Hinv.
    + intros k f p. simpl. destruct (decide (k = k0)) as [->|Hne].
      * by rewrite list_lookup_insert_eq.
      * rewrite list_lookup_insert_ne by done. apply Hinv.
    + apply loop_keeps_awaited; [done|]. intros k f p _. apply Hinv.
  - apply Hinv.
Qed.

Lemma awaited_is_requested textDocuments evs k f p :
  drains (reached env textDocuments evs) !! k = Some (AwaitCheck f p) →
  checkRequest env f ∈ requests (reached env textDocuments evs).
Proof.
  revert k f p. unfold reached, run.
  induction evs as [|ev evs IH] using rev_ind; intros k f p.
  - simpl. destruct (startup_invariant env textDocuments) as (_ & _ & _ & _ & -> & _).
    done.
  - rewrite foldl_app. simpl. by apply step_keeps_awaited.
Qed.

End Awaited.

(** C9.  In every world the manager can reach, a check call that a drain
    awaits for [file] was requested with the string of the mirrored location
    of [file], and with the configuration and properties resolved for its
    real identity; when that call settles with findings, the store entry of
    the real identity of [file] is replaced by them.  And whatever event is
    processed, the requests grow by such a request at most and the store
    changes by such a replacement at most. *)
Theorem request_by_mirror_store_by_identity (env : Env)
    (textDocuments : list TextDocument) (evs : list Event)
    (k : nat) (file : SyncedFile) (position : nat)
    (results : list ICheckstyleResult) :
  drains (reached env textDocuments evs) !! k = Some (AwaitCheck file position) →
  {| command := "java.checkstyle.checkCode";
     target := toString env (syncUri file);
     configurationPath := getCheckstyleConfigurationPath env (realUri file);
     properties := getCheckstyleProperties env (realUri file) |}
  ∈ requests (reached env textDocuments evs)
  ∧ collector (step env (reached env textDocuments evs) (CheckSettled k (Results results)))
    = <[realUri file := results]> (collector (reached env textDocuments evs))
  ∧ ∀ ev,
      (requests (step env (reached env textDocuments evs) ev)
       = requests (reached env textDocuments evs)
       ∨ ∃ k' file' position',
           drains (step env (reached env textDocuments evs) ev) !! k'
           = Some (AwaitCheck file' position')
           ∧ requests (step env (reached env textDocuments evs) ev)
             = requests (reached env textDocuments evs) ++
               [ {| command := "java.checkstyle.checkCode";
                    target := toString env (syncUri file');
                    configurationPath := getCheckstyleConfigurationPath env (realUri file');
                    properties := getCheckstyleProperties env (realUri file') |} ])
      ∧ (collector (step env (reached env textDocuments evs) ev)
         = collector (reached env textDocuments evs)
         ∨ ∃ k' file' position' results',
             drains (reached env textDocuments evs) !! k'
             = Some (AwaitCheck file' position')
             ∧ ev = CheckSettled k' (Results results')
             ∧ collector (step env (reached env textDocuments evs) ev)
               = <[realUri file' := results']> (collector (reached env textDocuments evs))).
Proof.
  intros Hd. split_and!.
  - by apply (awaited_is_requested env textDocuments evs k file position).
  - simpl. unfold checkSettled. rewrite Hd. rewrite loop_collector. simpl.
    unfold reconcile, Collector.addDiagnostics, Collector.delete.
    by rewrite insert_delete_eq.
  - intros ev. apply step_effects.
Qed.

(** The theorem at the drain that awaits the first check call of [docA]. *)
Lemma request_by_mirror_store_by_identity_witness :
  let w := reached Demo.envAll [Demo.docA] [Elapse 200; FlushResolved 0] in
  let file := Demo.synced 0 Demo.docA in
  let results := [Demo.finding 7 "unused import"] in
  {| command := "java.checkstyle.checkCode";
     target := "file:///tmp/sync/ws/A.java";
     configurationPath := "/ws/checks.xml";
     properties := [("basedir", "/ws")] |}
  ∈ requests w
  ∧ collector (step Demo.envAll w (CheckSettled 0 (Results results)))
    = <[uri Demo.docA := results]> (collector w)
  ∧ ∀ ev,
      (requests (step Demo.envAll w ev) = requests w
       ∨ ∃ k' file' position',
           drains (step Demo.envAll w ev) !! k' = Some (AwaitCheck file' position')
           ∧ requests (step Demo.envAll w ev)
             = requests w ++
               [ {| command := "java.checkstyle.checkCode";
                    target := toString Demo.envAll (syncUri file');
                    configurationPath :=
                      getCheckstyleConfigurationPath Demo.envAll (realUri file');
                    properties := getCheckstyleProperties Demo.envAll (realUri file') |} ])
      ∧ (collector (step Demo.envAll w ev) = collector w
         ∨ ∃ k' file' position' results',
             drains w !! k' = Some (AwaitCheck file' position')
             ∧ ev = CheckSettled k' (Results results')
             ∧ collector (step Demo.envAll w ev)
               = <[realUri file' := results']> (collector w)).
Proof.
  apply (request_by_mirror_store_by_identity Demo.envAll [Demo.docA]
           [Elapse 200; FlushResolved 0] 0 (Demo.synced 0 Demo.docA) 1
           [Demo.finding 7 "unused import"]).
  reflexivity.
Defined.

(** ** A drain and what is added to the set meanwhile *)


